(** * xtts_generate.py: the command-line driver of the XTTS demo

    A shallow embedding of
    [src/examples/TextToSpeech.XttsDemo/python/xtts_generate.py] and the
    properties its specification states about it.

    The script is a straight line of calls into third-party code (torch,
    TTS, torchaudio) around a command-line parser built with [argparse].
    Its own code is embedded function by function, in a small monad that
    threads the state of the outside world, can abort (an uncaught
    exception or [sys.exit]) and records what the process did.  The
    third-party code is a parameter: every theorem holds whatever the
    libraries answer.

    Conventions.
    - A Python [str] is a [string], one [ascii] per character (the
      characters below code point 256).
    - A Python [float] is a binary64 [float]; an [int] is a [Z].
    - [sys.argv[1:]] is a [list string].
    - A method call, look-up of the method included, is one [call].

    The file has the embedding first (the command line, the outside
    world, the monad, the script, a concrete world to run it in, the
    vocabulary of the properties), then the properties. *)

From Stdlib Require Import ZArith String Ascii List Bool Lia Floats.
Import ListNotations.
Open Scope string_scope.
Open Scope Z_scope.

Set Implicit Arguments.

(** Decimal literals denote the nearest binary64 float, as in Python. *)
Set Warnings "-inexact-float".

(** ** Strings *)

Module Str.

(** [s.startswith(p)] *)
Definition startswith (s p : string) : bool := String.prefix p s.

(** [c in s] *)
Fixpoint contains (c : ascii) (s : string) : bool :=
  match s with
  | EmptyString => false
  | String d s' => if Ascii.eqb c d then true else contains c s'
  end.

(** [s.split(c, 1)] when [c] occurs in [s]: the text before the first
    [c] and the text after it. *)
Fixpoint split1 (c : ascii) (s : string) : option (string * string) :=
  match s with
  | EmptyString => None
  | String d s' =>
      if Ascii.eqb c d then Some (EmptyString, s')
      else match split1 c s' with
           | Some (l, r) => Some (String d l, r)
           | None => None
           end
  end.

(** [s[:n]] *)
Definition take (n : nat) (s : string) : string := substring 0 n s.

Definition is_digit (c : ascii) : bool :=
  let n := nat_of_ascii c in (48 <=? n)%nat && (n <=? 57)%nat.

(** [\d*$] at the start of [s]; [$] also matches before a final newline. *)
Fixpoint digits_to_end (s : string) : bool :=
  match s with
  | EmptyString => true
  | String c s' =>
      if is_digit c then digits_to_end s'
      else if Ascii.eqb c "010" then
             match s' with EmptyString => true | _ => false end
           else false
  end.

(** [\d+$] at the start of [s]. *)
Definition digits1_to_end (s : string) : bool :=
  match s with
  | String c s' => is_digit c && digits_to_end s'
  | EmptyString => false
  end.

(** [\d*\.\d+$] at the start of [s]. *)
Fixpoint decimal_to_end (s : string) : bool :=
  match s with
  | EmptyString => false
  | String c s' =>
      if is_digit c then decimal_to_end s'
      else if Ascii.eqb c "." then digits1_to_end s'
      else false
  end.

End Str.

(** ** The command line ([main], lines 108-176)

    [argparse] belongs to Python's standard library, not to the script.
    It is modelled as CPython 3.11 runs it, for the constructs the
    script uses: long options that take one argument ([--flag value]
    and [--flag=value]), unambiguous prefixes of long options, the
    automatic [-h]/[--help], the [--] separator, [type], [default],
    [required] and [choices].  The parser's functions keep the names
    they have in CPython's [argparse.py].  The builtins [float] and
    [int], which the script passes as [type], are parameters of the
    parser. *)

(** What the parser leaves in an attribute of the namespace: the
    argument string, converted by the [type] of its option; or the
    empty list, which is what CPython 3.11 stores, with no conversion
    and no look at [choices], for an option written [--flag=--]. *)
Inductive attribute (A : Type) : Type :=
| Value (a : A)
| EmptyList.

Arguments EmptyList {A}.

(** A [str], a [float] or an [int] where an attribute is expected. *)
Definition of_str (s : string) : attribute string := Value s.
Definition of_float (x : float) : attribute float := Value x.
Definition of_int (k : Z) : attribute Z := Value k.

Coercion of_str : string >-> attribute.
Coercion of_float : float >-> attribute.
Coercion of_int : Z >-> attribute.

Arguments of_str s /.
Arguments of_float x /.
Arguments of_int k /.

(** [f"{x}"] *)
Definition format (x : attribute string) : string :=
  match x with
  | Value s => s
  | EmptyList => "[]"
  end.

(** [x[:n]] *)
Definition slice (n : nat) (x : attribute string) : attribute string :=
  match x with
  | Value s => Value (Str.take n s)
  | EmptyList => EmptyList
  end.

(** A namespace in which every attribute has the type of its option:
    what [parser.parse_args()] returns on success unless an option was
    written [--flag=--]. *)
Record Namespace := mkNamespace {
  base_model : string;
  finetuned : string;
  reference_audio : string;
  text : string;
  output : string;
  language : string;
  temperature : float;
  repetition_penalty : float;
  top_k : Z;
  top_p : float;
  device : string
}.

(** The namespace [parser.parse_args()] returns on success. *)
Record Attributes := mkAttributes {
  ns_base_model : attribute string;
  ns_finetuned : attribute string;
  ns_reference_audio : attribute string;
  ns_text : attribute string;
  ns_output : attribute string;
  ns_language : attribute string;
  ns_temperature : attribute float;
  ns_repetition_penalty : attribute float;
  ns_top_k : attribute Z;
  ns_top_p : attribute float;
  ns_device : attribute string
}.

Definition attributes_of (args : Namespace) : Attributes :=
  mkAttributes (base_model args) (finetuned args) (reference_audio args)
    (text args) (output args) (language args) (temperature args)
    (repetition_penalty args) (top_k args) (top_p args) (device args).

Coercion attributes_of : Namespace >-> Attributes.

Module Argparse.

(** The parser's actions: the help action every [ArgumentParser] has,
    then one per [add_argument] call, in the order of the source. *)
Inductive action :=
| Help
| BaseModel | Finetuned | ReferenceAudio
| Text | Output
| Language | Temperature | RepetitionPenalty | TopK | TopP
| Device.

Definition option_strings (a : action) : list string :=
  match a with
  | Help => ["-h"; "--help"]
  | BaseModel => ["--base-model"]
  | Finetuned => ["--finetuned"]
  | ReferenceAudio => ["--reference-audio"]
  | Text => ["--text"]
  | Output => ["--output"]
  | Language => ["--language"]
  | Temperature => ["--temperature"]
  | RepetitionPenalty => ["--repetition-penalty"]
  | TopK => ["--top-k"]
  | TopP => ["--top-p"]
  | Device => ["--device"]
  end.

Definition actions : list action :=
  [Help; BaseModel; Finetuned; ReferenceAudio; Text; Output;
   Language; Temperature; RepetitionPenalty; TopK; TopP; Device].

(** [required=True] *)
Definition required (a : action) : bool :=
  match a with
  | BaseModel | Finetuned | ReferenceAudio | Text | Output => true
  | _ => false
  end.

(** [choices=[...]]; [None] when the argument has no [choices]. *)
Definition choices (a : action) : option (list string) :=
  match a with
  | Device => Some ["cpu"; "cuda"]
  | _ => None
  end.

(** The parser's table from option string to action. *)
Definition option_string_actions : list (string * action) :=
  flat_map (fun a => map (fun o => (o, a)) (option_strings a)) actions.

Fixpoint lookup (o : string) (tbl : list (string * action)) : option action :=
  match tbl with
  | [] => None
  | (o', a) :: tbl' => if String.eqb o o' then Some a else lookup o tbl'
  end.

(** *** Telling options from arguments *)

(** What one command-line string is taken for. *)
Inductive reading :=
| Positional                                   (* an argument *)
| Optional (a : option action) (option_string : string)
           (explicit_arg : option string)      (* an option; no action: unknown *)
| Ambiguous.                                   (* a prefix of several options *)

(** A negative number: [^-\d+$|^-\d*\.\d+$]. *)
Definition negative_number (arg : string) : bool :=
  match arg with
  | String "-" s => Str.digits1_to_end s || Str.decimal_to_end s
  | _ => false
  end.

(** The option strings [arg] may abbreviate. *)
Definition get_option_tuples (arg : string)
  : list (action * string * option string) :=
  match arg with
  | String "-" (String "-" _) =>
      let '(option_prefix, explicit_arg) :=
        match Str.split1 "=" arg with
        | Some (l, r) => (l, Some r)
        | None => (arg, None)
        end in
      flat_map (fun '(o, a) =>
                  if Str.startswith o option_prefix
                  then [(a, o, explicit_arg)] else [])
               option_string_actions
  | String "-" (String c rest) =>
      let short_option_prefix := String "-" (String c EmptyString) in
      flat_map (fun '(o, a) =>
                  if String.eqb o short_option_prefix
                  then [(a, o, Some rest)]
                  else if Str.startswith o arg
                       then [(a, o, None)] else [])
               option_string_actions
  | _ => []
  end.

Definition parse_optional (arg : string) : reading :=
  match arg with
  | EmptyString => Positional
  | String c rest =>
      if negb (Ascii.eqb c "-") then Positional
      else
        match lookup arg option_string_actions with
        | Some a => Optional (Some a) arg None
        | None =>
            match rest with
            | EmptyString => Positional
            | _ =>
                let by_prefix :=
                  match get_option_tuples arg with
                  | _ :: _ :: _ => Ambiguous
                  | [(a, o, e)] => Optional (Some a) o e
                  | [] =>
                      if negative_number arg then Positional
                      else if Str.contains " " arg then Positional
                      else Optional None arg None
                  end in
                match Str.split1 "=" arg with
                | Some (o, e) =>
                    match lookup o option_string_actions with
                    | Some a => Optional (Some a) o (Some e)
                    | None => by_prefix
                    end
                | None => by_prefix
                end
            end
        end
  end.

(** The command line after this first pass: ['A'], ['-'] or ['O']. *)
Inductive tok :=
| A (arg : string)
| DashDash
| O (a : option action) (option_string : string) (explicit_arg : option string).

(** [None]: an ambiguous option, which is a usage error. *)
Fixpoint classify (args : list string) : option (list tok) :=
  match args with
  | [] => Some []
  | arg :: rest =>
      if String.eqb arg "--" then Some (DashDash :: map A rest)
      else
        match parse_optional arg with
        | Ambiguous => None
        | Positional => option_map (cons (A arg)) (classify rest)
        | Optional a o e => option_map (cons (O a o e)) (classify rest)
        end
  end.

(** *** Consuming the command line *)

(** The namespace while the command line is read.  A required
    destination is [None] until its option is met; the others start
    from their [default] (lines 140-174). *)
Record partial := mkPartial {
  p_base_model : option (attribute string);
  p_finetuned : option (attribute string);
  p_reference_audio : option (attribute string);
  p_text : option (attribute string);
  p_output : option (attribute string);
  p_language : attribute string;
  p_temperature : attribute float;
  p_repetition_penalty : attribute float;
  p_top_k : attribute Z;
  p_top_p : attribute float;
  p_device : attribute string;
  p_extras : list string                        (* unrecognized arguments *)
}.

Definition defaults : partial :=
  {| p_base_model := None;
     p_finetuned := None;
     p_reference_audio := None;
     p_text := None;
     p_output := None;
     p_language := "cs";
     p_temperature := 0.75%float;
     p_repetition_penalty := 3.0%float;
     p_top_k := 50;
     p_top_p := 0.85%float;
     p_device := "cpu";
     p_extras := [] |}.

Definition add_extra (arg : string) (p : partial) : partial :=
  mkPartial (p_base_model p) (p_finetuned p) (p_reference_audio p)
    (p_text p) (p_output p) (p_language p) (p_temperature p)
    (p_repetition_penalty p) (p_top_k p) (p_top_p p) (p_device p)
    (p_extras p ++ [arg]).

Inductive parse_result :=
| Parsed (args : Attributes)
| UsageError                   (* [parser.error]: usage on stderr, exit status 2 *)
| HelpExit.                    (* help on stdout, exit status 0 *)

Section Parser.

(** [float(s)] and [int(s)] on a [str]; [None] for [ValueError]. *)
Variable float_of_str : string -> option float.
Variable int_of_str : string -> option Z.

Definition check_value (a : action) (v : string) : bool :=
  match choices a with
  | Some cs => existsb (String.eqb v) cs
  | None => true
  end.

(** A [store] action on the one argument string [_get_values] is left
    with: convert it with the argument's [type], check it against
    [choices], set the destination.  [None] is a usage error. *)
Definition take_action (a : action) (v : string) (p : partial)
  : option partial :=
  if negb (check_value a v) then None
  else
    match a with
    | Help => None
    | BaseModel =>
        Some (mkPartial (Some (Value v)) (p_finetuned p) (p_reference_audio p)
                (p_text p) (p_output p) (p_language p) (p_temperature p)
                (p_repetition_penalty p) (p_top_k p) (p_top_p p)
                (p_device p) (p_extras p))
    | Finetuned =>
        Some (mkPartial (p_base_model p) (Some (Value v)) (p_reference_audio p)
                (p_text p) (p_output p) (p_language p) (p_temperature p)
                (p_repetition_penalty p) (p_top_k p) (p_top_p p)
                (p_device p) (p_extras p))
    | ReferenceAudio =>
        Some (mkPartial (p_base_model p) (p_finetuned p) (Some (Value v))
                (p_text p) (p_output p) (p_language p) (p_temperature p)
                (p_repetition_penalty p) (p_top_k p) (p_top_p p)
                (p_device p) (p_extras p))
    | Text =>
        Some (mkPartial (p_base_model p) (p_finetuned p)
                (p_reference_audio p) (Some (Value v)) (p_output p) (p_language p)
                (p_temperature p) (p_repetition_penalty p) (p_top_k p)
                (p_top_p p) (p_device p) (p_extras p))
    | Output =>
        Some (mkPartial (p_base_model p) (p_finetuned p)
                (p_reference_audio p) (p_text p) (Some (Value v)) (p_language p)
                (p_temperature p) (p_repetition_penalty p) (p_top_k p)
                (p_top_p p) (p_device p) (p_extras p))
    | Language =>
        Some (mkPartial (p_base_model p) (p_finetuned p)
                (p_reference_audio p) (p_text p) (p_output p) v
                (p_temperature p) (p_repetition_penalty p) (p_top_k p)
                (p_top_p p) (p_device p) (p_extras p))
    | Temperature =>
        match float_of_str v with
        | Some x =>
            Some (mkPartial (p_base_model p) (p_finetuned p)
                    (p_reference_audio p) (p_text p) (p_output p)
                    (p_language p) x (p_repetition_penalty p) (p_top_k p)
                    (p_top_p p) (p_device p) (p_extras p))
        | None => None
        end
    | RepetitionPenalty =>
        match float_of_str v with
        | Some x =>
            Some (mkPartial (p_base_model p) (p_finetuned p)
                    (p_reference_audio p) (p_text p) (p_output p)
                    (p_language p) (p_temperature p) x (p_top_k p)
                    (p_top_p p) (p_device p) (p_extras p))
        | None => None
        end
    | TopK =>
        match int_of_str v with
        | Some k =>
            Some (mkPartial (p_base_model p) (p_finetuned p)
                    (p_reference_audio p) (p_text p) (p_output p)
                    (p_language p) (p_temperature p)
                    (p_repetition_penalty p) k (p_top_p p) (p_device p)
                    (p_extras p))
        | None => None
        end
    | TopP =>
        match float_of_str v with
        | Some x =>
            Some (mkPartial (p_base_model p) (p_finetuned p)
                    (p_reference_audio p) (p_text p) (p_output p)
                    (p_language p) (p_temperature p)
                    (p_repetition_penalty p) (p_top_k p) x (p_device p)
                    (p_extras p))
        | None => None
        end
    | Device =>
        Some (mkPartial (p_base_model p) (p_finetuned p)
                (p_reference_audio p) (p_text p) (p_output p)
                (p_language p) (p_temperature p) (p_repetition_penalty p)
                (p_top_k p) (p_top_p p) v (p_extras p))
    end.

(** The empty list as the value of the option of [a]. *)
Definition store_empty_list (a : action) (p : partial) : partial :=
  match a with
  | Help => p
  | BaseModel =>
      mkPartial (Some EmptyList) (p_finetuned p) (p_reference_audio p)
        (p_text p) (p_output p) (p_language p) (p_temperature p)
        (p_repetition_penalty p) (p_top_k p) (p_top_p p) (p_device p)
        (p_extras p)
  | Finetuned =>
      mkPartial (p_base_model p) (Some EmptyList) (p_reference_audio p)
        (p_text p) (p_output p) (p_language p) (p_temperature p)
        (p_repetition_penalty p) (p_top_k p) (p_top_p p) (p_device p)
        (p_extras p)
  | ReferenceAudio =>
      mkPartial (p_base_model p) (p_finetuned p) (Some EmptyList)
        (p_text p) (p_output p) (p_language p) (p_temperature p)
        (p_repetition_penalty p) (p_top_k p) (p_top_p p) (p_device p)
        (p_extras p)
  | Text =>
      mkPartial (p_base_model p) (p_finetuned p) (p_reference_audio p)
        (Some EmptyList) (p_output p) (p_language p) (p_temperature p)
        (p_repetition_penalty p) (p_top_k p) (p_top_p p) (p_device p)
        (p_extras p)
  | Output =>
      mkPartial (p_base_model p) (p_finetuned p) (p_reference_audio p)
        (p_text p) (Some EmptyList) (p_language p) (p_temperature p)
        (p_repetition_penalty p) (p_top_k p) (p_top_p p) (p_device p)
        (p_extras p)
  | Language =>
      mkPartial (p_base_model p) (p_finetuned p) (p_reference_audio p)
        (p_text p) (p_output p) EmptyList (p_temperature p)
        (p_repetition_penalty p) (p_top_k p) (p_top_p p) (p_device p)
        (p_extras p)
  | Temperature =>
      mkPartial (p_base_model p) (p_finetuned p) (p_reference_audio p)
        (p_text p) (p_output p) (p_language p) EmptyList
        (p_repetition_penalty p) (p_top_k p) (p_top_p p) (p_device p)
        (p_extras p)
  | RepetitionPenalty =>
      mkPartial (p_base_model p) (p_finetuned p) (p_reference_audio p)
        (p_text p) (p_output p) (p_language p) (p_temperature p)
        EmptyList (p_top_k p) (p_top_p p) (p_device p) (p_extras p)
  | TopK =>
      mkPartial (p_base_model p) (p_finetuned p) (p_reference_audio p)
        (p_text p) (p_output p) (p_language p) (p_temperature p)
        (p_repetition_penalty p) EmptyList (p_top_p p) (p_device p)
        (p_extras p)
  | TopP =>
      mkPartial (p_base_model p) (p_finetuned p) (p_reference_audio p)
        (p_text p) (p_output p) (p_language p) (p_temperature p)
        (p_repetition_penalty p) (p_top_k p) EmptyList (p_device p)
        (p_extras p)
  | Device =>
      mkPartial (p_base_model p) (p_finetuned p) (p_reference_audio p)
        (p_text p) (p_output p) (p_language p) (p_temperature p)
        (p_repetition_penalty p) (p_top_k p) (p_top_p p) EmptyList
        (p_extras p)
  end.

(** What CPython's [take_action] does with the one argument string of
    an option.  [_get_values] first removes a string that is exactly
    [--]: no string is left then, the value is the list of the
    converted strings, which is empty, and it is stored as it is.  Any
    other string is the one argument: it is converted, checked and
    stored.  Only the text after [=] can be [--] here: as a string of
    its own, [--] is never the argument of an option. *)
Definition get_values_and_store (a : action) (arg_string : string)
           (p : partial) : option partial :=
  if String.eqb arg_string "--" then Some (store_empty_list a p)
  else take_action a arg_string p.

(** The end of the command line: every required option was met and
    nothing was left unrecognized. *)
Definition finish (p : partial) : parse_result :=
  match p_base_model p, p_finetuned p, p_reference_audio p,
        p_text p, p_output p, p_extras p with
  | Some b, Some f, Some r, Some t, Some o, [] =>
      Parsed (mkAttributes b f r t o (p_language p) (p_temperature p)
                (p_repetition_penalty p) (p_top_k p) (p_top_p p)
                (p_device p))
  | _, _, _, _, _, _ => UsageError
  end.

(** [-h] written with more after it ([-hh], [-h=h]): what follows is
    read as further one-letter options, and [-h] is the only one. *)
Fixpoint all_h (s : string) : bool :=
  match s with
  | EmptyString => true
  | String c s' => Ascii.eqb c "h" && all_h s'
  end.

Definition help_action (option_string : string)
           (explicit_arg : option string) : parse_result :=
  match explicit_arg with
  | None => HelpExit
  | Some e =>
      if String.eqb option_string "-h" && negb (String.eqb e "") && all_h e
      then HelpExit
      else UsageError
  end.

(** [pending] is an option that still waits for its one argument. *)
Fixpoint consume (toks : list tok) (pending : option action) (p : partial)
  : parse_result :=
  match toks with
  | [] =>
      match pending with
      | Some _ => UsageError                     (* expected one argument *)
      | None => finish p
      end
  | t :: rest =>
      match pending with
      | Some a =>
          match t with
          | A v =>
              match get_values_and_store a v p with
              | Some p' => consume rest None p'
              | None => UsageError
              end
          | _ => UsageError                      (* expected one argument *)
          end
      | None =>
          match t with
          | A arg => consume rest None (add_extra arg p)
          | DashDash => consume rest None (add_extra "--" p)
          | O None arg _ => consume rest None (add_extra arg p)
          | O (Some Help) o e => help_action o e
          | O (Some a) _ (Some v) =>
              match get_values_and_store a v p with
              | Some p' => consume rest None p'
              | None => UsageError
              end
          | O (Some a) _ None => consume rest (Some a) p
          end
      end
  end.

(** [parser.parse_args()] on [sys.argv[1:]]. *)
Definition parse_args (argv : list string) : parse_result :=
  match classify argv with
  | None => UsageError
  | Some toks => consume toks None defaults
  end.

End Parser.

End Argparse.

(** ** The outside world

    Everything the script does not compute itself: the file system, the
    imported packages and the objects they hand back. *)

(** An exception that reaches the script.  [SystemExit] is not one of
    them: it is the [SysExit] way of ending a run, below. *)
Inductive exn :=
| ImportError (msg : string)        (* [ImportError] or a subclass of it *)
| Exception (cls msg : string).     (* an exception of any other class *)

(** The statements and expressions that run third-party code, with the
    arguments the script passes.  [obj] is whatever such code returns.
    An argument that comes from the namespace is an [attribute]. *)
Inductive call (obj : Type) :=
| Import (module : string)
    (* [import module], [from module import name] *)
| XttsConfig_new
    (* [XttsConfig()] *)
| load_json (config : obj) (file_name : string)
    (* [config.load_json(file_name)] *)
| init_from_config (config : obj)
    (* [Xtts.init_from_config(config)] *)
| load_checkpoint (model config : obj) (checkpoint_dir : attribute string)
                  (use_deepspeed : bool)
    (* [model.load_checkpoint(config, checkpoint_dir=.., use_deepspeed=..)] *)
| torch_device (device : attribute string)
    (* [torch.device(device)] *)
| torch_load (f : attribute string) (map_location : obj)
    (* [torch.load(f, map_location=..)] *)
| getitem (o : obj) (key : string)
    (* [o[key]] *)
| load_state_dict (model state_dict : obj) (strict : bool)
    (* [model.load_state_dict(state_dict, strict=..)] *)
| model_to (model : obj) (device : attribute string)
    (* [model.to(device)] *)
| model_eval (model : obj)
    (* [model.eval()] *)
| getattr (o : obj) (name : string)
    (* [o.name], a data attribute *)
| get_conditioning_latents (model : obj)
                           (audio_path : list (attribute string))
                           (gpt_cond_len max_ref_length sound_norm_refs : obj)
    (* [model.get_conditioning_latents(audio_path=.., gpt_cond_len=..,
        max_ref_length=.., sound_norm_refs=..)] *)
| inference (model : obj) (text language : attribute string)
            (gpt_cond_latent speaker_embedding : obj)
            (temperature repetition_penalty : attribute float)
            (top_k : attribute Z) (top_p : attribute float)
    (* [model.inference(text=.., language=.., ...)] *)
| torch_tensor (data : obj)
    (* [torch.tensor(data)] *)
| unsqueeze (tensor : obj) (dim : Z)
    (* [tensor.unsqueeze(dim)] *)
| cpu (tensor : obj)
    (* [tensor.cpu()] *)
| torchaudio_save (uri : attribute string) (src : obj) (sample_rate : Z).
    (* [torchaudio.save(uri, src, sample_rate)] *)

Arguments Import {obj}.
Arguments XttsConfig_new {obj}.
Arguments torch_device {obj}.

Record World := mkWorld {
  obj : Type;
  state : Type;
  (** [os.path.exists(path)], in a given state of the world *)
  path_exists : state -> string -> bool;
  (** [os.path.join(a, b)] *)
  path_join : string -> string -> string;
  (** [float(s)] and [int(s)] on a [str]: [None] for [ValueError] *)
  float_of_str : string -> option float;
  int_of_str : string -> option Z;
  (** third-party code: it returns or raises, and changes the world *)
  respond : call obj -> state -> (exn + obj) * state;
  (** [isinstance(o, torch.Tensor)] *)
  is_tensor : obj -> bool;
  (** [o.ndim] *)
  ndim : obj -> exn + Z;
  (** [a, b = o] *)
  unpack2 : obj -> exn + obj * obj
}.

(** ** The script's monad *)

(** How a computation ends early. *)
Inductive abort :=
| SysExit (code : Z)                  (* [sys.exit(code)] *)
| Raise (e : exn).                    (* an exception nobody caught *)

Inductive res (A : Type) :=
| Ok (a : A)
| Abort (x : abort).

Arguments Ok {A}.
Arguments Abort {A}.

Section Monad.

Variable W : World.

Local Abbreviation obj := (obj W).
Local Abbreviation state := (state W).

(** What a run leaves behind, in order. *)
Inductive entry :=
| Stderr (line : string)              (* [print(line, file=sys.stderr)] *)
| Usage                               (* argparse: usage and error, on stderr *)
| HelpText                            (* argparse: the help, on stdout *)
| PathExists (path : string) (b : bool) (* [os.path.exists(path)] was [b] *)
| Call (c : call obj) (r : exn + obj). (* third-party code ran *)

Definition M (A : Type) : Type := state -> res A * state * list entry.

Definition ret {A} (a : A) : M A := fun s => (Ok a, s, []).

Definition bind {A B} (m : M A) (k : A -> M B) : M B :=
  fun s =>
    match m s with
    | (Ok a, s1, t1) =>
        match k a s1 with
        | (r, s2, t2) => (r, s2, (t1 ++ t2)%list)
        end
    | (Abort x, s1, t1) => (Abort x, s1, t1)
    end.

Definition emit (e : entry) : M unit := fun s => (Ok tt, s, [e]).

Definition print (line : string) : M unit := emit (Stderr line).

Definition sys_exit {A} (code : Z) : M A := fun s => (Abort (SysExit code), s, []).

Definition raise {A} (e : exn) : M A := fun s => (Abort (Raise e), s, []).

(** [os.path.exists(path)]; on a list it raises [TypeError]. *)
Definition os_path_exists (path : attribute string) : M bool :=
  match path with
  | Value path =>
      fun s => let b := path_exists W s path in (Ok b, s, [PathExists path b])
  | EmptyList =>
      raise (Exception "TypeError"
                       "stat: path should be string, bytes, os.PathLike or integer, not list")
  end.

(** [os.path.join(a, b)]; on a list it raises [TypeError]. *)
Definition os_path_join (a : attribute string) (b : string) : M string :=
  match a with
  | Value a => ret (path_join W a b)
  | EmptyList =>
      raise (Exception "TypeError"
                       "expected str, bytes or os.PathLike object, not list")
  end.

Definition do_call (c : call obj) : M obj :=
  fun s =>
    match respond W c s with
    | (inr o, s') => (Ok o, s', [Call c (inr o)])
    | (inl e, s') => (Abort (Raise e), s', [Call c (inl e)])
    end.

(** A pure operation that may raise. *)
Definition lift {A} (r : exn + A) : M A :=
  match r with
  | inr a => ret a
  | inl e => raise e
  end.

(** [try: body / except ImportError: handler] *)
Definition try_except_ImportError {A} (body handler : M A) : M A :=
  fun s =>
    match body s with
    | (Abort (Raise (ImportError _)), s1, t1) =>
        match handler s1 with
        | (r, s2, t2) => (r, s2, (t1 ++ t2)%list)
        end
    | r => r
    end.

End Monad.

Arguments ret {W A}.
Arguments bind {W A B}.
Arguments emit {W}.
Arguments print {W}.
Arguments sys_exit {W A}.
Arguments raise {W A}.
Arguments os_path_exists {W}.
Arguments os_path_join {W}.
Arguments do_call {W}.
Arguments lift {W A}.
Arguments try_except_ImportError {W A}.
Arguments Stderr {W}.
Arguments Usage {W}.
Arguments HelpText {W}.
Arguments PathExists {W}.
Arguments Call {W}.

Declare Scope script_scope.
Delimit Scope script_scope with script.
Notation "x <- m ;; k" := (bind m (fun x => k))
  (at level 61, m at next level, right associativity) : script_scope.
Notation "' pat <- m ;; k" := (bind m (fun x => match x with pat => k end))
  (at level 61, pat pattern, m at next level, right associativity) : script_scope.
Notation "m ;; k" := (bind m (fun _ => k))
  (at level 61, right associativity) : script_scope.

(** ** The script *)

Section Script.

Variable W : World.

Local Abbreviation obj := (obj W).
Local Abbreviation M := (M W).

Local Open Scope script_scope.

(** Lines 15-17: the imports under [try]. *)
Definition guarded_imports : M unit :=
  _ <- do_call (Import "torch") ;;
  _ <- do_call (Import "TTS.tts.configs.xtts_config") ;;
  _ <- do_call (Import "TTS.tts.models.xtts") ;;
  ret tt.

(** Lines 14-21. *)
Definition imports : M unit :=
  try_except_ImportError
    guarded_imports
    (print "ERROR: Required packages not installed. Install with:" ;;
     print "pip install TTS torch" ;;
     sys_exit 1).

(** Lines 24-46. *)
Definition load_model
           (base_model_path finetuned_checkpoint device : attribute string)
  : M obj :=
  print ("Loading base model from: " ++ format base_model_path) ;;
  config_path <- os_path_join base_model_path "config.json" ;;
  config <- do_call XttsConfig_new ;;
  _ <- do_call (load_json config config_path) ;;
  model <- do_call (init_from_config config) ;;
  _ <- do_call (load_checkpoint model config base_model_path false) ;;
  print ("Loading finetuned weights from: " ++ format finetuned_checkpoint) ;;
  map_location <- do_call (torch_device device) ;;
  checkpoint <- do_call (torch_load finetuned_checkpoint map_location) ;;
  state_dict <- do_call (getitem checkpoint "model") ;;
  _ <- do_call (load_state_dict model state_dict false) ;;
  _ <- do_call (model_to model device) ;;
  _ <- do_call (model_eval model) ;;
  print ("Model loaded on device: " ++ format device) ;;
  ret model.

(** Lines 49-60. *)
Definition compute_speaker_latents (model : obj)
           (reference_audio_path device : attribute string) : M (obj * obj) :=
  print ("Computing speaker latents from: " ++ format reference_audio_path) ;;
  config1 <- do_call (getattr model "config") ;;
  gpt_cond_len <- do_call (getattr config1 "gpt_cond_len") ;;
  config2 <- do_call (getattr model "config") ;;
  max_ref_len <- do_call (getattr config2 "max_ref_len") ;;
  config3 <- do_call (getattr model "config") ;;
  sound_norm_refs <- do_call (getattr config3 "sound_norm_refs") ;;
  latents <- do_call (get_conditioning_latents model [reference_audio_path]
                        gpt_cond_len max_ref_len sound_norm_refs) ;;
  '(gpt_cond_latent, speaker_embedding) <- lift (unpack2 W latents) ;;
  ret (gpt_cond_latent, speaker_embedding).

(** Lines 63-88. *)
Definition generate_speech (model : obj) (text : attribute string)
           (gpt_cond_latent speaker_embedding : obj)
           (language : attribute string)
           (temperature repetition_penalty : attribute float)
           (top_k : attribute Z) (top_p : attribute float) : M obj :=
  print ("Generating speech for text: " ++ format (slice 50 text) ++ "...") ;;
  out <- do_call (inference model text language gpt_cond_latent
                    speaker_embedding temperature repetition_penalty
                    top_k top_p) ;;
  ret out.

(** The default of [save_audio]'s [sample_rate] parameter (line 91). *)
Definition default_sample_rate : Z := 24000.

(** Lines 91-104. *)
Definition save_audio (audio_tensor : obj) (output_path : attribute string)
           (sample_rate : Z) : M unit :=
  _ <- do_call (Import "torchaudio") ;;
  audio_tensor <- (if negb (is_tensor W audio_tensor)
                   then do_call (torch_tensor audio_tensor)
                   else ret audio_tensor) ;;
  n <- lift (ndim W audio_tensor) ;;
  audio_tensor <- (if n =? 1
                   then do_call (unsqueeze audio_tensor 0)
                   else ret audio_tensor) ;;
  on_cpu <- do_call (cpu audio_tensor) ;;
  _ <- do_call (torchaudio_save output_path on_cpu sample_rate) ;;
  print ("Audio saved to: " ++ format output_path).

(** Lines 178-216: [main] once the command line is parsed. *)
Definition main_body (args : Attributes) : M unit :=
  b <- os_path_exists (ns_base_model args) ;;
  (if negb b
   then print ("ERROR: Base model not found: " ++ format (ns_base_model args)) ;;
        sys_exit 1
   else ret tt) ;;
  b <- os_path_exists (ns_finetuned args) ;;
  (if negb b
   then print ("ERROR: Finetuned checkpoint not found: "
               ++ format (ns_finetuned args)) ;;
        sys_exit 1
   else ret tt) ;;
  b <- os_path_exists (ns_reference_audio args) ;;
  (if negb b
   then print ("ERROR: Reference audio not found: "
               ++ format (ns_reference_audio args)) ;;
        sys_exit 1
   else ret tt) ;;
  model <- load_model (ns_base_model args) (ns_finetuned args)
             (ns_device args) ;;
  '(gpt_cond_latent, speaker_embedding) <-
    compute_speaker_latents model (ns_reference_audio args) (ns_device args) ;;
  audio_output <-
    generate_speech model (ns_text args) gpt_cond_latent speaker_embedding
      (ns_language args) (ns_temperature args) (ns_repetition_penalty args)
      (ns_top_k args) (ns_top_p args) ;;
  wav <- do_call (getitem audio_output "wav") ;;
  audio_tensor <- do_call (torch_tensor wav) ;;
  save_audio audio_tensor (ns_output args) default_sample_rate ;;
  print "SUCCESS".

(** Lines 107-216. *)
Definition main (argv : list string) : M unit :=
  match Argparse.parse_args (float_of_str W) (int_of_str W) argv with
  | Argparse.HelpExit => emit HelpText ;; sys_exit 0
  | Argparse.UsageError => emit Usage ;; sys_exit 2
  | Argparse.Parsed args => main_body args
  end.

(** The file run as a program: the imports, then, as [__name__] is
    ["__main__"], [main()]. *)
Definition script (argv : list string) : M unit :=
  imports ;;
  main argv.

(** The exit status of the process: 0 at the end of the file, the code
    of [sys.exit], 1 for an exception nobody caught (after its
    traceback, which the trace leaves out). *)
Definition exit_status {A} (r : res A) : Z :=
  match r with
  | Ok _ => 0
  | Abort (SysExit code) => code
  | Abort (Raise _) => 1
  end.

End Script.

(** ** A world to run the script in

    A small stand-in for the packages, used to run the script on concrete
    command lines.  The state of this world is the list of paths that
    exist; a tensor is known by its shape. *)

Module Sim.

Inductive sobj :=
| PyNone
| Module_
| Config
| ConfigValue (name : string)
| Model
| TorchDevice (device : string)
| Checkpoint
| StateDict
| Latents
| GptCondLatent
| SpeakerEmbedding
| Output
| Array (shape : list nat)
| Tensor (shape : list nat).

(** [installed]: whether torch, TTS and torchaudio can be imported.
    [wav_shape]: the shape of the samples that inference returns. *)
Definition respond (installed : bool) (wav_shape : list nat)
           (c : call sobj) (files : list string)
  : (exn + sobj) * list string :=
  match c with
  | Import m =>
      if installed then (inr Module_, files)
      else (inl (ImportError ("No module named " ++ m)), files)
  | XttsConfig_new => (inr Config, files)
  | load_json Config _ => (inr PyNone, files)
  | init_from_config Config => (inr Model, files)
  | load_checkpoint Model Config (Value _) _ => (inr PyNone, files)
  | torch_device (Value d) => (inr (TorchDevice d), files)
  | torch_load (Value _) (TorchDevice _) => (inr Checkpoint, files)
  | getitem Checkpoint "model" => (inr StateDict, files)
  | getitem Output "wav" => (inr (Array wav_shape), files)
  | getitem _ k => (inl (Exception "KeyError" k), files)
  | load_state_dict Model StateDict _ => (inr PyNone, files)
  | model_to Model (Value _) => (inr Model, files)
  | model_eval Model => (inr Model, files)
  | getattr Model "config" => (inr Config, files)
  | getattr Config name => (inr (ConfigValue name), files)
  | getattr _ name => (inl (Exception "AttributeError" name), files)
  | get_conditioning_latents Model [Value _] _ _ _ => (inr Latents, files)
  | inference Model (Value _) (Value _) GptCondLatent SpeakerEmbedding
              (Value _) (Value _) (Value _) (Value _) =>
      (inr Output, files)
  | torch_tensor (Array shape) => (inr (Tensor shape), files)
  | torch_tensor (Tensor shape) => (inr (Tensor shape), files)
  | unsqueeze (Tensor shape) 0 => (inr (Tensor (1%nat :: shape)), files)
  | cpu (Tensor shape) => (inr (Tensor shape), files)
  | torchaudio_save (Value uri) (Tensor [_; _]) _ =>
      (inr PyNone, uri :: files)
  | torchaudio_save (Value _) (Tensor _) _ =>
      (inl (Exception "ValueError" "Expected 2D Tensor"), files)
  | _ => (inl (Exception "TypeError" "unsupported operand"), files)
  end.

Definition is_tensor (o : sobj) : bool :=
  match o with
  | Tensor _ => true
  | _ => false
  end.

Definition ndim (o : sobj) : exn + Z :=
  match o with
  | Tensor shape | Array shape => inr (Z.of_nat (List.length shape))
  | _ => inl (Exception "AttributeError" "ndim")
  end.

Definition unpack2 (o : sobj) : exn + sobj * sobj :=
  match o with
  | Latents => inr (GptCondLatent, SpeakerEmbedding)
  | _ => inl (Exception "TypeError" "cannot unpack")
  end.

Definition path_exists (files : list string) (path : string) : bool :=
  existsb (String.eqb path) files.

(** [posixpath.join(a, b)] for a relative [b]. *)
Fixpoint ends_with_slash (a : string) : bool :=
  match a with
  | EmptyString => true
  | String c EmptyString => Ascii.eqb c "/"
  | String _ a' => ends_with_slash a'
  end.

Definition path_join (a b : string) : string :=
  if ends_with_slash a then a ++ b else a ++ "/" ++ b.

(** Unsigned decimal numerals. *)
Fixpoint decimal (s : string) (acc : Z) : option Z :=
  match s with
  | EmptyString => Some acc
  | String c s' =>
      if Str.is_digit c
      then decimal s' (10 * acc + (Z.of_nat (nat_of_ascii c) - 48))
      else None
  end.

Definition int_of_str (s : string) : option Z :=
  match s with
  | EmptyString => None
  | String "-" s' =>
      match s' with
      | EmptyString => None
      | _ => option_map Z.opp (decimal s' 0)
      end
  | _ => decimal s 0
  end.

(** Floats written as integers, and a few others. *)
Definition float_of_str (s : string) : option float :=
  if String.eqb s "0.5" then Some 0.5%float
  else if String.eqb s "1.5" then Some 1.5%float
  else
    match int_of_str s with
    | Some (Z0) => Some 0%float
    | Some (Zpos p) => Some (PrimFloat.of_uint63 (Uint63.of_pos p))
    | Some (Zneg p) => Some (- PrimFloat.of_uint63 (Uint63.of_pos p))%float
    | None => None
    end.

Definition world (installed : bool) (wav_shape : list nat) : World :=
  @mkWorld sobj (list string) path_exists path_join float_of_str int_of_str
           (respond installed wav_shape) is_tensor ndim unpack2.

(** The packages installed, inference returning four samples in one
    dimension; and no package installed. *)
Definition installed : World := world true [4%nat].
Definition bare : World := world false [4%nat].

(** A command line with the five required options, and its namespace. *)
Definition argv : list string :=
  ["--base-model"; "models/xtts"; "--finetuned"; "ft/best.pth";
   "--reference-audio"; "ref.wav"; "--text"; "Ahoj"; "--output"; "out.wav"].

Definition args : Namespace :=
  mkNamespace "models/xtts" "ft/best.pth" "ref.wav" "Ahoj" "out.wav"
              "cs" 0.75%float 3.0%float 50 0.85%float "cpu".

(** The three inputs of [argv]. *)
Definition files : list string := ["models/xtts"; "ft/best.pth"; "ref.wav"].

(** What the three guarded imports leave in a run. *)
Definition imported : list (entry installed) :=
  [@Call installed (Import "torch") (inr Module_);
   @Call installed (Import "TTS.tts.configs.xtts_config") (inr Module_);
   @Call installed (Import "TTS.tts.models.xtts") (inr Module_)].

End Sim.

(** ** Reading a command line and a run

    The vocabulary of the properties below. *)

Module Cmdline.

Import Argparse.

Definition action_eq_dec (a b : action) : {a = b} + {a <> b}.
Proof. decide equality. Defined.

(** [arg] is read as the option of action [a], alone or with [=value]. *)
Definition selects (a : action) (arg : string) : bool :=
  match parse_optional arg with
  | Optional (Some a') _ _ => if action_eq_dec a a' then true else false
  | _ => false
  end.

(** No string of the command line is the option of action [a]. *)
Definition omitted (a : action) (argv : list string) : bool :=
  forallb (fun arg => negb (selects a arg)) argv.

(** The value an option is given: the text after [=], or else the next
    string of the command line. *)
Definition given_value (explicit_arg : option string) (rest : list string)
  : option string :=
  match explicit_arg with
  | Some v => Some v
  | None => hd_error rest
  end.

(** The string [arg], followed by [rest] on the command line, gives
    [--device] the value [v]: [--device v], [--device=v], or the same
    with [--device] abbreviated. *)
Definition gives_device (arg : string) (rest : list string) (v : string) : Prop :=
  exists o e,
    parse_optional arg = Optional (Some Device) o e /\
    given_value e rest = Some v.

(** [arg] is the option of action [a] written [--flag=--], which leaves
    the empty list in its attribute. *)
Definition writes_empty_list (a : action) (arg : string) : bool :=
  match parse_optional arg with
  | Optional (Some a') _ (Some e) =>
      if action_eq_dec a a' then String.eqb e "--" else false
  | _ => false
  end.

End Cmdline.

Section Reading.

Variable W : World.

Definition outcome {A} (r : res A * state W * list (entry W)) : res A :=
  fst (fst r).

Definition final_state {A} (r : res A * state W * list (entry W)) : state W :=
  snd (fst r).

Definition trace {A} (r : res A * state W * list (entry W)) : list (entry W) :=
  snd r.

(** The lines printed on stderr. *)
Definition stderr (t : list (entry W)) : list string :=
  flat_map (fun e => match e with Stderr line => [line] | _ => [] end) t.

(** The third-party code that ran. *)
Definition calls (t : list (entry W)) : list (call (obj W)) :=
  flat_map (fun e => match e with Call c _ => [c] | _ => [] end) t.

(** The paths whose existence was asked. *)
Definition checked_paths (t : list (entry W)) : list string :=
  flat_map (fun e => match e with PathExists p _ => [p] | _ => [] end) t.

(** The three inputs [main] checks, as it names them in its messages. *)
Definition required_inputs (args : Namespace) : list (string * string) :=
  [("Base model", base_model args);
   ("Finetuned checkpoint", finetuned args);
   ("Reference audio", reference_audio args)].

Definition not_found (label path : string) : string :=
  "ERROR: " ++ label ++ " not found: " ++ path.

(** The four operations the driver delegates, [load_model],
    [compute_speaker_latents], [generate_speech] and [save_audio], each
    known in a run by the third-party code that only its function
    runs. *)
Inductive step := LoadModel | ComputeLatents | Synthesize | WriteAudio.

Definition pipeline : list step :=
  [LoadModel; ComputeLatents; Synthesize; WriteAudio].

Definition step_eq_dec (a b : step) : {a = b} + {a <> b}.
Proof. decide equality. Defined.

Definition step_of_call (c : call (obj W)) : option step :=
  match c with
  | XttsConfig_new | load_json _ _ | init_from_config _
  | load_checkpoint _ _ _ _ | torch_device _ | torch_load _ _
  | load_state_dict _ _ _ | model_to _ _ | model_eval _ => Some LoadModel
  | getattr _ _ | get_conditioning_latents _ _ _ _ _ => Some ComputeLatents
  | inference _ _ _ _ _ _ _ _ _ => Some Synthesize
  | unsqueeze _ _ | cpu _ | torchaudio_save _ _ _ => Some WriteAudio
  | Import m => if String.eqb m "torchaudio" then Some WriteAudio else None
  | getitem _ _ | torch_tensor _ => None       (* also run by [main] itself *)
  end.

(** Runs of one step count once. *)
Fixpoint squash (l : list step) : list step :=
  match l with
  | [] => []
  | a :: l' =>
      match l' with
      | b :: _ => if step_eq_dec a b then squash l' else a :: squash l'
      | [] => [a]
      end
  end.

(** The steps a run went through, in order. *)
Definition steps (t : list (entry W)) : list step :=
  squash (flat_map (fun c => match step_of_call c with
                             | Some st => [st]
                             | None => []
                             end) (calls t)).

(** [e] is the last third-party code of step [st] returning. *)
Definition completes (st : step) (e : entry W) : bool :=
  match st, e with
  | LoadModel, Call (model_eval _) (inr _) => true
  | ComputeLatents, Call (get_conditioning_latents _ _ _ _ _) (inr latents) =>
      match unpack2 W latents with inr _ => true | inl _ => false end
  | Synthesize, Call (inference _ _ _ _ _ _ _ _ _) (inr _) => true
  | WriteAudio, Call (torchaudio_save _ _ _) (inr _) => true
  | _, _ => false
  end.

Definition completed (st : step) (t : list (entry W)) : bool :=
  existsb (completes st) t.

(** What a run did before its first [import torchaudio], the first
    statement of [save_audio]. *)
Fixpoint before_write (t : list (entry W)) : list (entry W) :=
  match t with
  | [] => []
  | Call (Import m) _ as e :: t' =>
      if String.eqb m "torchaudio" then [] else e :: before_write t'
  | e :: t' => e :: before_write t'
  end.

(** The steps that come before [st]. *)
Definition preceding (st : step) : list step :=
  match st with
  | LoadModel => []
  | ComputeLatents => [LoadModel]
  | Synthesize => [LoadModel; ComputeLatents]
  | WriteAudio => [LoadModel; ComputeLatents; Synthesize]
  end.

(** Third-party code [c] returned [o] in [t]. *)
Definition returned (t : list (entry W)) (c : call (obj W)) (o : obj W) : Prop :=
  In (Call c (inr o)) t.

(** [src] is [tensor] as the audio writer prepares it: converted to a
    tensor or not, given a leading axis or not, then moved to the CPU. *)
Definition written_from (t : list (entry W)) (tensor src : obj W) : Prop :=
  exists a b,
    (a = tensor \/ returned t (torch_tensor tensor) a) /\
    (b = a \/ returned t (unsqueeze a 0) b) /\
    returned t (cpu b) src.

(** [e] takes its inputs from what the steps before it returned, [t]
    being the run up to [e]: the latents are computed on the model that
    was loaded, synthesis runs on that model and on those latents, and
    what is written is the audio that synthesis returned. *)
Definition fed_by (t : list (entry W)) (e : entry W) : Prop :=
  match e with
  | Call (get_conditioning_latents model _ _ _ _) _ =>
      exists config, returned t (init_from_config config) model
  | Call (inference model _ _ g spk _ _ _ _) _ =>
      (exists config, returned t (init_from_config config) model) /\
      exists audio_path a b c latents,
        returned t (get_conditioning_latents model audio_path a b c) latents /\
        unpack2 W latents = inr (g, spk)
  | Call (torchaudio_save _ src _) _ =>
      exists model tx lg g spk tmp rp k p audio_output wav tensor,
        returned t (inference model tx lg g spk tmp rp k p) audio_output /\
        returned t (getitem audio_output "wav") wav /\
        returned t (torch_tensor wav) tensor /\
        written_from t tensor src
  | _ => True
  end.

Fixpoint all_fed (before t : list (entry W)) : Prop :=
  match t with
  | [] => True
  | e :: t' => fed_by before e /\ all_fed (before ++ [e])%list t'
  end.

(** [e], when it is the inference call, passes the synthesis parameters
    of [args] as they are. *)
Definition passes_parameters (args : Namespace) (e : entry W) : Prop :=
  match e with
  | Call (inference _ t l _ _ tmp rp k p) _ =>
      t = text args /\ l = language args /\ tmp = temperature args /\
      rp = repetition_penalty args /\ k = top_k args /\ p = top_p args
  | _ => True
  end.

(** [e], when it is the inference call or names a device to torch,
    takes the language, the numbers or the device of [args]. *)
Definition takes_options (args : Attributes) (e : entry W) : Prop :=
  match e with
  | Call (inference _ _ l _ _ tmp rp k p) _ =>
      l = ns_language args /\ tmp = ns_temperature args /\
      rp = ns_repetition_penalty args /\ k = ns_top_k args /\
      p = ns_top_p args
  | Call (torch_device d) _ | Call (model_to _ d) _ => d = ns_device args
  | _ => True
  end.

(** In [t], [torch.device] and [model.to] were called on the device of
    [args] and [model.inference] with the text, the language and the
    numbers of [args], and each returned. *)
Definition options_used (args : Attributes) (t : list (entry W)) : Prop :=
  exists model dev moved g spk out,
    returned t (torch_device (ns_device args)) dev /\
    returned t (model_to model (ns_device args)) moved /\
    returned t (inference model (ns_text args) (ns_language args) g spk
                          (ns_temperature args) (ns_repetition_penalty args)
                          (ns_top_k args) (ns_top_p args)) out.

(** What [compute_speaker_latents] may leave in a run: its message,
    reads of attributes, and [get_conditioning_latents] on [model] and
    on the one reference audio. *)
Definition latents_entry (model : obj W) (reference_audio_path : string)
           (e : entry W) : Prop :=
  match e with
  | Stderr _ | Call (getattr _ _) _ => True
  | Call (get_conditioning_latents m audio_path _ _ _) _ =>
      m = model /\ audio_path = [Value reference_audio_path]
  | _ => False
  end.

(** [e], when it is the audio writer's [torchaudio.save], writes to
    [path] at [rate] a tensor made from [buffer]: [buffer] itself or
    its conversion by [torch.tensor], with as many dimensions, or with
    two when it had one. *)
Definition written_layout (t : list (entry W)) (buffer : obj W)
           (path : string) (rate : Z) (e : entry W) : Prop :=
  match e with
  | Call (torchaudio_save uri src sample_rate) _ =>
      uri = path /\ sample_rate = rate /\
      exists tensor n,
        (is_tensor W buffer = true /\ tensor = buffer \/
         is_tensor W buffer = false /\
         returned t (torch_tensor buffer) tensor) /\
        ndim W tensor = inr n /\
        ndim W src = inr (if n =? 1 then 2 else n)
  | _ => True
  end.

(** [e], when it is the audio writer's [torchaudio.save], writes at
    [rate]. *)
Definition written_rate (rate : Z) (e : entry W) : Prop :=
  match e with
  | Call (torchaudio_save _ _ sample_rate) _ => sample_rate = rate
  | _ => True
  end.

(** What is handed to [torchaudio.save] in [t] has two dimensions and
    goes out at 24000 Hz. *)
Definition writes_2d_at_24000 (t : list (entry W)) : Prop :=
  forall uri src sample_rate r,
    In (Call (torchaudio_save uri src sample_rate) r) t ->
    ndim W src = inr 2 /\ sample_rate = 24000.

(** What is used of torch's tensors: [unsqueeze] adds a dimension and
    [cpu] keeps their number. *)
Definition torch_shapes : Prop :=
  (forall t s u s' n,
      respond W (unsqueeze t 0) s = (inr u, s') ->
      ndim W t = inr n -> ndim W u = inr (n + 1)) /\
  (forall t s u s',
      respond W (cpu t) s = (inr u, s') -> ndim W u = ndim W t).

End Reading.

Arguments returned : simpl never.
Arguments written_from : simpl never.

(** The namespace [args] with another [--output]. *)
Definition with_output (o : string) (args : Namespace) : Namespace :=
  mkNamespace (base_model args) (finetuned args) (reference_audio args)
    (text args) o (language args) (temperature args)
    (repetition_penalty args) (top_k args) (top_p args) (device args).

(** The attributes of a namespace, by the action that sets them. *)
Inductive value :=
| VNone
| VStr (s : string)
| VFloat (x : float)
| VInt (k : Z)
| VEmptyList.

Definition str_value (x : attribute string) : value :=
  match x with
  | Value s => VStr s
  | EmptyList => VEmptyList
  end.

Definition float_value (x : attribute float) : value :=
  match x with
  | Value x => VFloat x
  | EmptyList => VEmptyList
  end.

Definition int_value (x : attribute Z) : value :=
  match x with
  | Value k => VInt k
  | EmptyList => VEmptyList
  end.

Definition opt_str (o : option (attribute string)) : value :=
  match o with
  | Some x => str_value x
  | None => VNone
  end.

Definition partial_attr (a : Argparse.action) (p : Argparse.partial) : value :=
  match a with
  | Argparse.Help => VNone
  | Argparse.BaseModel => opt_str (Argparse.p_base_model p)
  | Argparse.Finetuned => opt_str (Argparse.p_finetuned p)
  | Argparse.ReferenceAudio => opt_str (Argparse.p_reference_audio p)
  | Argparse.Text => opt_str (Argparse.p_text p)
  | Argparse.Output => opt_str (Argparse.p_output p)
  | Argparse.Language => str_value (Argparse.p_language p)
  | Argparse.Temperature => float_value (Argparse.p_temperature p)
  | Argparse.RepetitionPenalty =>
      float_value (Argparse.p_repetition_penalty p)
  | Argparse.TopK => int_value (Argparse.p_top_k p)
  | Argparse.TopP => float_value (Argparse.p_top_p p)
  | Argparse.Device => str_value (Argparse.p_device p)
  end.

Definition attr (a : Argparse.action) (args : Attributes) : value :=
  match a with
  | Argparse.Help => VNone
  | Argparse.BaseModel => str_value (ns_base_model args)
  | Argparse.Finetuned => str_value (ns_finetuned args)
  | Argparse.ReferenceAudio => str_value (ns_reference_audio args)
  | Argparse.Text => str_value (ns_text args)
  | Argparse.Output => str_value (ns_output args)
  | Argparse.Language => str_value (ns_language args)
  | Argparse.Temperature => float_value (ns_temperature args)
  | Argparse.RepetitionPenalty => float_value (ns_repetition_penalty args)
  | Argparse.TopK => int_value (ns_top_k args)
  | Argparse.TopP => float_value (ns_top_p args)
  | Argparse.Device => str_value (ns_device args)
  end.

(** A token of the first pass is the option of action [b]. *)
Definition tok_selects (b : Argparse.action) (t : Argparse.tok) : Prop :=
  match t with
  | Argparse.O (Some a) _ _ => a = b
  | _ => False
  end.

(** A token of the first pass is the option of action [b] written
    [--flag=--]. *)
Definition tok_empties (b : Argparse.action) (t : Argparse.tok) : Prop :=
  match t with
  | Argparse.O (Some a) _ (Some e) => a = b /\ e = "--"
  | _ => False
  end.

(** The [choices] of [--device]. *)
Definition device_ok (d : string) : Prop := d = "cpu" \/ d = "cuda".

(** What the parser may leave as the device: one of the [choices], or
    the empty list. *)
Definition device_stored (d : attribute string) : Prop :=
  d = "cpu" \/ d = "cuda" \/ d = EmptyList.

(** The device is one of the [choices]. *)
Definition device_named (d : attribute string) : Prop :=
  d = "cpu" \/ d = "cuda".

(** No string of the command line is [--device=--]. *)
Definition no_empty_device (argv : list string) : Prop :=
  Forall (fun arg => Cmdline.writes_empty_list Argparse.Device arg = false)
         argv.

(** ** More vocabulary: the rest of the script *)

Module Given.

Import Argparse.

(** The string [arg], followed by [rest] on the command line, gives the
    option of action [a] the value [v]. *)
Definition gives (a : action) (arg : string) (rest : list string) (v : string)
  : Prop :=
  exists o e,
    parse_optional arg = Optional (Some a) o e /\
    Cmdline.given_value e rest = Some v.

(** The value [v] is not one the [type] of [a] converts. *)
Definition unconvertible (float_of_str : string -> option float)
           (int_of_str : string -> option Z) (a : action) (v : string) : Prop :=
  match a with
  | Temperature | RepetitionPenalty | TopP => float_of_str v = None
  | TopK => int_of_str v = None
  | _ => False
  end.

(** What [--flag=v] leaves in an attribute that is a string: [v],
    or the empty list when [v] is [--]. *)
Definition stored (v : string) : attribute string :=
  if String.eqb v "--" then EmptyList else Value v.

(** [--flag=v] leaves [x] in an attribute whose [type] is [conv]: what
    [conv] makes of [v], or the empty list when [v] is [--]. *)
Definition converted (A : Type) (conv : string -> option A) (v : string)
           (x : attribute A) : Prop :=
  if String.eqb v "--" then x = EmptyList
  else exists a, conv v = Some a /\ x = Value a.

(** The eleven options written [--flag=value]. *)
Definition equals_form (b f r t o l tmp rp k p d : string) : list string :=
  ["--base-model=" ++ b; "--finetuned=" ++ f; "--reference-audio=" ++ r;
   "--text=" ++ t; "--output=" ++ o; "--language=" ++ l;
   "--temperature=" ++ tmp; "--repetition-penalty=" ++ rp;
   "--top-k=" ++ k; "--top-p=" ++ p; "--device=" ++ d].

(** The five required options written [--flag value]. *)
Definition spaced_form (b f r t o : string) : list string :=
  ["--base-model"; b; "--finetuned"; f; "--reference-audio"; r;
   "--text"; t; "--output"; o].

(** [v] does not begin with a dash. *)
Definition plain (v : string) : bool :=
  match v with
  | String "-" _ => false
  | _ => true
  end.

End Given.

Section Coverage.

Variable W : World.

(** A property of each entry of a run and of the run before it. *)
Fixpoint all_before (P : list (entry W) -> entry W -> Prop)
         (before t : list (entry W)) : Prop :=
  match t with
  | [] => True
  | e :: t' => P before e /\ all_before P (before ++ [e])%list t'
  end.

(** What [load_model] may leave in a run, [before] being the run up to
    [e]: each third-party call is made on what the calls before it
    returned, with the paths and the device [load_model] was given. *)
Definition load_fed_by (base_model_path finetuned_checkpoint device : string)
           (before : list (entry W)) (e : entry W) : Prop :=
  match e with
  | Stderr _ | Call XttsConfig_new _ => True
  | Call (load_json config file_name) _ =>
      returned before XttsConfig_new config /\
      file_name = path_join W base_model_path "config.json"
  | Call (init_from_config config) _ =>
      exists r,
        returned before
                 (load_json config (path_join W base_model_path "config.json"))
                 r
  | Call (load_checkpoint model config checkpoint_dir use_deepspeed) _ =>
      returned before (init_from_config config) model /\
      checkpoint_dir = base_model_path /\ use_deepspeed = false
  | Call (torch_device d) _ => d = device
  | Call (torch_load f map_location) _ =>
      f = finetuned_checkpoint /\
      returned before (torch_device device) map_location
  | Call (getitem checkpoint key) _ =>
      key = "model" /\
      exists map_location,
        returned before (torch_load finetuned_checkpoint map_location)
                 checkpoint
  | Call (load_state_dict model state_dict strict) _ =>
      strict = false /\
      (exists config r,
          returned before (init_from_config config) model /\
          returned before
                   (load_checkpoint model config base_model_path false) r) /\
      exists checkpoint, returned before (getitem checkpoint "model") state_dict
  | Call (model_to model d) _ =>
      d = device /\
      exists state_dict r,
        returned before (load_state_dict model state_dict false) r
  | Call (model_eval model) _ =>
      exists r, returned before (model_to model device) r
  | _ => False
  end.

Definition model_loaded (device : string) : string :=
  "Model loaded on device: " ++ device.

Definition audio_saved (output_path : string) : string :=
  "Audio saved to: " ++ output_path.

(** [e], when it names a device to torch, names one that is [ok]. *)
Definition device_entry (ok : attribute string -> Prop) (e : entry W) : Prop :=
  match e with
  | Call (torch_device d) _ | Call (model_to _ d) _ => ok d
  | _ => True
  end.

(** [e], when it names a file or a directory, names the one of [args]
    that belongs there. *)
Definition path_entry (args : Namespace) (e : entry W) : Prop :=
  match e with
  | PathExists p _ =>
      In p [base_model args; finetuned args; reference_audio args]
  | Call (load_json _ file_name) _ =>
      file_name = path_join W (base_model args) "config.json"
  | Call (load_checkpoint _ _ checkpoint_dir _) _ =>
      checkpoint_dir = base_model args
  | Call (torch_load f _) _ => f = finetuned args
  | Call (get_conditioning_latents _ audio_path _ _ _) _ =>
      audio_path = [Value (reference_audio args)]
  | Call (torchaudio_save uri _ _) _ => uri = output args
  | _ => True
  end.

(** How many times a run ran third-party code of a kind. *)
Definition count (kind : call (obj W) -> bool) (t : list (entry W)) : nat :=
  List.length (filter kind (calls t)).

Definition is_init (c : call (obj W)) : bool :=
  match c with init_from_config _ => true | _ => false end.

Definition is_latents (c : call (obj W)) : bool :=
  match c with get_conditioning_latents _ _ _ _ _ => true | _ => false end.

Definition is_inference (c : call (obj W)) : bool :=
  match c with inference _ _ _ _ _ _ _ _ _ => true | _ => false end.

Definition is_save (c : call (obj W)) : bool :=
  match c with torchaudio_save _ _ _ => true | _ => false end.

Definition is_conversion (c : call (obj W)) : bool :=
  match c with torch_tensor _ => true | _ => false end.

Definition is_torch_load (c : call (obj W)) : bool :=
  match c with torch_load _ _ => true | _ => false end.

(** [e], when it is a conversion by [torch.tensor], converts the samples
    of what inference returned in [t]. *)
Definition converts_wav (t : list (entry W)) (e : entry W) : Prop :=
  match e with
  | Call (torch_tensor data) _ =>
      exists audio_output, returned t (getitem audio_output "wav") data
  | _ => True
  end.

(** How a run ends when the parser refuses the command line: argparse
    has printed its usage message and left with status 2, [t0] being
    what the imports left. *)
Definition usage_exit (t0 : list (entry W))
           (r : res unit * state W * list (entry W)) : Prop :=
  outcome r = Abort (SysExit 2) /\
  exit_status (outcome r) = 2 /\
  trace r = (t0 ++ [Usage])%list /\
  checked_paths (trace r) = [] /\
  steps (trace r) = [].

(** And when it is asked for help. *)
Definition help_exit (t0 : list (entry W))
           (r : res unit * state W * list (entry W)) : Prop :=
  outcome r = Abort (SysExit 0) /\
  exit_status (outcome r) = 0 /\
  trace r = (t0 ++ [HelpText])%list /\
  checked_paths (trace r) = [] /\
  steps (trace r) = [].

(** Third-party code that raised. *)
Definition failed (e : entry W) : bool :=
  match e with
  | Call _ (inl _) => true
  | _ => false
  end.

(** [import module] raised. *)
Definition import_failed (module : string) (e : entry W) : bool :=
  match e with
  | Call (Import m) (inl _) => String.eqb m module
  | _ => false
  end.

(** [e], when it asks whether a path exists, is answered yes. *)
Definition found (e : entry W) : Prop :=
  match e with
  | PathExists _ b => b = true
  | _ => True
  end.

(** The two lines of the installation hint (lines 19-20). *)
Definition install_hint : list string :=
  ["ERROR: Required packages not installed. Install with:";
   "pip install TTS torch"].

(** What is used of [torch.tensor]: what it returns is a
    [torch.Tensor]. *)
Definition tensor_is_tensor : Prop :=
  forall data s o s',
    respond W (torch_tensor data) s = (inr o, s') -> is_tensor W o = true.

End Coverage.

(** ** Worlds where something goes wrong *)

Module Faulty.

(** torch is installed and broken: importing it raises an [OSError]. *)
Definition broken_respond (c : call Sim.sobj) (files : list string)
  : (exn + Sim.sobj) * list string :=
  match c with
  | Import _ =>
      (inl (Exception "OSError" "libtorch.so: cannot open shared object file"),
       files)
  | _ => Sim.respond true [4%nat] c files
  end.

Definition broken_torch : World :=
  @mkWorld Sim.sobj (list string) Sim.path_exists Sim.path_join
           Sim.float_of_str Sim.int_of_str broken_respond
           Sim.is_tensor Sim.ndim Sim.unpack2.

(** torch and TTS are installed, torchaudio is not. *)
Definition no_torchaudio_respond (c : call Sim.sobj) (files : list string)
  : (exn + Sim.sobj) * list string :=
  match c with
  | Import m =>
      if String.eqb m "torchaudio"
      then (inl (ImportError "No module named torchaudio"), files)
      else (inr Sim.Module_, files)
  | _ => Sim.respond true [4%nat] c files
  end.

Definition no_torchaudio : World :=
  @mkWorld Sim.sobj (list string) Sim.path_exists Sim.path_join
           Sim.float_of_str Sim.int_of_str no_torchaudio_respond
           Sim.is_tensor Sim.ndim Sim.unpack2.

(** Inference returns samples in three dimensions, which
    [torchaudio.save] refuses. *)
Definition three_dimensions : World := Sim.world true [2; 3; 5]%nat.

End Faulty.

(** * Properties *)

Unset Implicit Arguments.

(** ** The command-line parser *)

Module ArgparseFacts.

Import Argparse Cmdline.

Local Open Scope list_scope.

Section Parser.

Variable float_of_str : string -> option float.
Variable int_of_str : string -> option Z.

Local Abbreviation take_action := (take_action float_of_str int_of_str).
Local Abbreviation get_values_and_store :=
  (get_values_and_store float_of_str int_of_str).
Local Abbreviation consume := (consume float_of_str int_of_str).
Local Abbreviation parse_args := (parse_args float_of_str int_of_str).

Lemma check_value_device (v : string) :
  check_value Device v = true <-> device_ok v.
Proof.
  unfold check_value, device_ok; cbn [choices existsb].
  rewrite !orb_true_iff, !String.eqb_eq.
  clear. intuition congruence.
Qed.

Lemma take_action_checked (a : action) (v : string) (p p' : partial) :
  take_action a v p = Some p' -> check_value a v = true.
Proof.
  unfold Argparse.take_action. destruct (check_value a v); [reflexivity|].
  cbn. discriminate.
Qed.

Ltac take_action_cases a H :=
  unfold Argparse.take_action in H;
  destruct (check_value a _) eqn:?; cbn [negb] in H; [|discriminate];
  destruct a; cbn in H;
  repeat match type of H with
         | match ?x with _ => _ end = _ => destruct x eqn:?
         end;
  try discriminate; inversion H; subst; clear H.

(** A [store] leaves the other attributes alone. *)
Lemma take_action_frame (a b : action) (v : string) (p p' : partial) :
  take_action a v p = Some p' -> a <> b -> partial_attr b p' = partial_attr b p.
Proof.
  intros H Hab. take_action_cases a H; destruct b; try reflexivity; congruence.
Qed.

Lemma take_action_extras (a : action) (v : string) (p p' : partial) :
  take_action a v p = Some p' -> p_extras p' = p_extras p.
Proof.
  intros H. take_action_cases a H; reflexivity.
Qed.

Lemma str_value_inj (x y : attribute string) :
  str_value x = str_value y -> x = y.
Proof. destruct x, y; cbn; congruence. Qed.

Lemma take_action_device (a : action) (v : string) (p p' : partial) :
  take_action a v p = Some p' ->
  (a = Device /\ device_ok v /\ p_device p' = v) \/
  (a <> Device /\ p_device p' = p_device p).
Proof.
  intros H. pose proof (take_action_checked _ _ _ _ H) as Hc.
  destruct (action_eq_dec a Device) as [->|Hne].
  - left. apply check_value_device in Hc.
    unfold Argparse.take_action in H.
    destruct (check_value Device v); cbn in H; [|discriminate].
    inversion H; subst. auto.
  - right. split; [exact Hne|].
    pose proof (take_action_frame _ _ _ _ _ H Hne) as Hf. cbn in Hf.
    exact (str_value_inj _ _ Hf).
Qed.

(** *** The argument string that may be [--] *)

Lemma get_values_and_store_cases (a : action) (v : string) (p p' : partial) :
  get_values_and_store a v p = Some p' ->
  (v = "--" /\ p' = store_empty_list a p) \/
  (v <> "--" /\ take_action a v p = Some p').
Proof.
  unfold Argparse.get_values_and_store.
  destruct (String.eqb_spec v "--") as [->|Hv]; intros H.
  - left. inversion H. auto.
  - right. auto.
Qed.

Lemma store_empty_list_frame (a b : action) (p : partial) :
  a <> b -> partial_attr b (store_empty_list a p) = partial_attr b p.
Proof. intros Hab. destruct a, b; try reflexivity; congruence. Qed.

Lemma store_empty_list_extras (a : action) (p : partial) :
  p_extras (store_empty_list a p) = p_extras p.
Proof. destruct a; reflexivity. Qed.

Lemma get_values_and_store_frame (a b : action) (v : string) (p p' : partial) :
  get_values_and_store a v p = Some p' -> a <> b ->
  partial_attr b p' = partial_attr b p.
Proof.
  intros H Hab.
  destruct (get_values_and_store_cases _ _ _ _ H) as [[_ ->]|[_ Ht]].
  - apply store_empty_list_frame, Hab.
  - exact (take_action_frame _ _ _ _ _ Ht Hab).
Qed.

Lemma get_values_and_store_extras (a : action) (v : string) (p p' : partial) :
  get_values_and_store a v p = Some p' -> p_extras p' = p_extras p.
Proof.
  intros H.
  destruct (get_values_and_store_cases _ _ _ _ H) as [[_ ->]|[_ Ht]].
  - apply store_empty_list_extras.
  - exact (take_action_extras _ _ _ _ Ht).
Qed.

Lemma get_values_and_store_device (a : action) (v : string) (p p' : partial) :
  get_values_and_store a v p = Some p' ->
  device_stored (p_device p) -> device_stored (p_device p').
Proof.
  intros H Hd.
  destruct (get_values_and_store_cases _ _ _ _ H) as [[_ ->]|[_ Ht]].
  - destruct a; try exact Hd. right; right. reflexivity.
  - destruct (take_action_device _ _ _ _ Ht) as [(_ & [->| ->] & ->)|[_ ->]];
      [left; reflexivity|right; left; reflexivity|exact Hd].
Qed.

Lemma add_extra_frame (b : action) (arg : string) (p : partial) :
  partial_attr b (add_extra arg p) = partial_attr b p.
Proof. destruct b; reflexivity. Qed.

Lemma add_extra_extras (arg : string) (p : partial) :
  p_extras (add_extra arg p) <> [].
Proof. cbn. destruct (p_extras p); discriminate. Qed.

Lemma finish_parsed (p : partial) (args : Attributes) :
  finish p = Parsed args ->
  p_extras p = [] /\ forall b, b <> Help -> partial_attr b p = attr b args.
Proof.
  unfold finish.
  destruct (p_base_model p) eqn:?, (p_finetuned p) eqn:?,
           (p_reference_audio p) eqn:?, (p_text p) eqn:?, (p_output p) eqn:?,
           (p_extras p) eqn:?; try discriminate.
  intros H; inversion H; subst; clear H. split; [reflexivity|].
  intros b Hb. destruct b; cbn; try congruence;
    repeat match goal with E : _ = Some _ |- _ => rewrite E; clear E end;
    reflexivity.
Qed.

Lemma finish_extras (p : partial) :
  p_extras p <> [] -> finish p = UsageError.
Proof.
  unfold finish. intros H.
  destruct (p_base_model p), (p_finetuned p), (p_reference_audio p),
           (p_text p), (p_output p), (p_extras p); congruence.
Qed.

(** The attribute of an option the tokens never select is the one the
    parser started from. *)
Lemma consume_frame (b : action) (toks : list tok) :
  b <> Help ->
  Forall (fun t => ~ tok_selects b t) toks ->
  forall pending p args,
    pending <> Some b ->
    consume toks pending p = Parsed args ->
    attr b args = partial_attr b p.
Proof.
  intros Hb Hall. induction Hall as [|t toks Ht Hall IH]; intros pending p args Hp H.
  - cbn in H. destruct pending; [discriminate|].
    symmetry. apply finish_parsed; assumption.
  - cbn [Argparse.consume] in H. destruct pending as [a|].
    + destruct t; try discriminate.
      destruct (get_values_and_store a arg p) as [p'|] eqn:E; [|discriminate].
      rewrite (IH None _ _ ltac:(discriminate) H).
      apply (get_values_and_store_frame _ _ _ _ _ E). congruence.
    + destruct t as [arg| |[a|] o e].
      * rewrite (IH None _ _ ltac:(discriminate) H). apply add_extra_frame.
      * rewrite (IH None _ _ ltac:(discriminate) H). apply add_extra_frame.
      * cbn in Ht.
        assert (Hcont :
                  match e with
                  | Some v => match get_values_and_store a v p with
                              | Some p' => consume toks None p'
                              | None => UsageError
                              end
                  | None => consume toks (Some a) p
                  end = Parsed args \/ a = Help).
        { destruct a; auto. }
        destruct Hcont as [Hc | ->].
        -- destruct e as [v|].
           ++ destruct (get_values_and_store a v p) as [p'|] eqn:E; [|discriminate].
              rewrite (IH None _ _ ltac:(discriminate) Hc).
              apply (get_values_and_store_frame _ _ _ _ _ E). exact Ht.
           ++ apply (IH (Some a) _ _ ltac:(congruence) Hc).
        -- unfold help_action in H. destruct e; [|discriminate].
           destruct (_ && _); discriminate.
      * rewrite (IH None _ _ ltac:(discriminate) H). apply add_extra_frame.
Qed.

(** Whatever is parsed, the device is one of the [choices] of
    [--device], or the empty list. *)
Lemma consume_device (toks : list tok) :
  forall pending p args,
    device_stored (p_device p) ->
    consume toks pending p = Parsed args ->
    device_stored (ns_device args).
Proof.
  induction toks as [|t toks IH]; intros pending p args Hd H.
  - cbn in H. destruct pending; [discriminate|].
    apply finish_parsed in H. destruct H as [_ H].
    specialize (H Device ltac:(discriminate)). cbn in H.
    apply str_value_inj in H. rewrite <- H. exact Hd.
  - cbn [Argparse.consume] in H. destruct pending as [a|].
    + destruct t; try discriminate.
      destruct (get_values_and_store a arg p) as [p'|] eqn:E; [|discriminate].
      exact (IH _ _ _ (get_values_and_store_device _ _ _ _ E Hd) H).
    + destruct t as [arg| |[a|] o e];
        try (eapply IH; [|exact H]; exact Hd).
      assert (Hcont :
                match e with
                | Some v => match get_values_and_store a v p with
                            | Some p' => consume toks None p'
                            | None => UsageError
                            end
                | None => consume toks (Some a) p
                end = Parsed args \/ a = Help).
      { destruct a; auto. }
      destruct Hcont as [Hc | ->].
      * destruct e as [v|].
        -- destruct (get_values_and_store a v p) as [p'|] eqn:E; [|discriminate].
           exact (IH _ _ _ (get_values_and_store_device _ _ _ _ E Hd) Hc).
        -- exact (IH _ _ _ Hd Hc).
      * unfold help_action in H. destruct e; [|discriminate].
        destruct (_ && _); discriminate.
Qed.

(** The tokens of the first pass that are options come from strings
    of the command line that [parse_optional] reads as those options. *)
Lemma classify_omitted (b : action) (argv : list string) :
  forall toks,
    classify argv = Some toks ->
    omitted b argv = true ->
    Forall (fun t => ~ tok_selects b t) toks.
Proof.
  induction argv as [|arg rest IH]; intros toks Hc Ho.
  - inversion Hc. constructor.
  - cbn [classify] in Hc. destruct (String.eqb arg "--").
    + inversion Hc; subst. constructor; [cbn; tauto|].
      clear. induction rest; constructor; cbn; tauto.
    + cbn [omitted forallb] in Ho. apply andb_true_iff in Ho.
      destruct Ho as [Hs Ho]. fold (omitted b rest) in Ho.
      unfold selects in Hs.
      destruct (parse_optional arg) as [|a o e|]; try discriminate;
        destruct (classify rest) as [toks'|]; try discriminate;
        inversion Hc; subst; (constructor; [|apply IH; auto]); cbn; try tauto.
      destruct a as [a|]; [|tauto].
      destruct (action_eq_dec b a); [discriminate|congruence].
Qed.

(** An option that is omitted keeps its default. *)
Lemma parse_args_omitted (b : action) (argv : list string)
      (args : Attributes) :
  b <> Help ->
  parse_args argv = Parsed args ->
  omitted b argv = true ->
  attr b args = partial_attr b defaults.
Proof.
  unfold Argparse.parse_args. intros Hb H Ho.
  destruct (classify argv) as [toks|] eqn:Hc; [|discriminate].
  apply (consume_frame b toks Hb (classify_omitted b argv toks Hc Ho) None);
    [discriminate|exact H].
Qed.

Lemma parse_args_device (argv : list string) (args : Attributes) :
  parse_args argv = Parsed args -> device_stored (ns_device args).
Proof.
  unfold Argparse.parse_args. intros H.
  destruct (classify argv) as [toks|]; [|discriminate].
  apply (consume_device toks None defaults args); [left; reflexivity|exact H].
Qed.

(** Once something was left unrecognized, only the help can keep the
    parse from ending in a usage error. *)
Lemma consume_extras (toks : list tok) :
  Forall (fun t => ~ tok_selects Help t) toks ->
  forall pending p,
    p_extras p <> [] -> consume toks pending p = UsageError.
Proof.
  intros Hall. induction Hall as [|t toks Ht Hall IH]; intros pending p Hx.
  - cbn. destruct pending; [reflexivity|]. apply finish_extras, Hx.
  - cbn [Argparse.consume]. destruct pending as [a|].
    + destruct t; try reflexivity.
      destruct (get_values_and_store a arg p) as [p'|] eqn:E; [|reflexivity].
      apply IH. rewrite (get_values_and_store_extras _ _ _ _ E). exact Hx.
    + destruct t as [arg| |[a|] o e]; try (apply IH, add_extra_extras).
      cbn in Ht. destruct a; try tauto;
        (destruct e as [v|]; [|apply IH, Hx]);
        match goal with
        | |- context [get_values_and_store ?a v p] =>
            destruct (get_values_and_store a v p) as [p'|] eqn:E; [|reflexivity];
            apply IH; rewrite (get_values_and_store_extras _ _ _ _ E); exact Hx
        end.
Qed.

Lemma parse_optional_not_dashdash (arg : string) (a : option action)
      (o : string) (e : option string) :
  parse_optional arg = Optional a o e -> String.eqb arg "--" = false.
Proof.
  intros H. destruct (String.eqb_spec arg "--") as [->|]; [|reflexivity].
  vm_compute in H. discriminate.
Qed.

(** The parse of a command line on which an option of [--device] is
    given a value outside its [choices], and not written [--device=--],
    with no help option before it. *)
Lemma consume_bad_device (pre : list string) (arg : string)
      (o : string) (e : option string) (post : list string) :
  omitted Help pre = true ->
  parse_optional arg = Optional (Some Device) o e ->
  e <> Some "--" ->
  (forall v, given_value e post = Some v -> ~ device_ok v) ->
  forall pending p,
    match classify (pre ++ arg :: post) with
    | Some toks => consume toks pending p = UsageError
    | None => True
    end.
Proof.
  intros Hh Harg He Hv. induction pre as [|x pre IH]; intros pending p.
  - cbn [app classify].
    rewrite (parse_optional_not_dashdash _ _ _ _ Harg), Harg.
    destruct (classify post) as [tr|] eqn:Hp; cbn [option_map]; [|exact I].
    cbn [Argparse.consume]. destruct pending; [reflexivity|].
    destruct e as [v|].
    + destruct (get_values_and_store Device v p) as [p'|] eqn:E; [|reflexivity].
      destruct (get_values_and_store_cases _ _ _ _ E) as [[-> _]|[_ Ht]];
        [congruence|].
      apply take_action_checked, check_value_device in Ht.
      exfalso. exact (Hv v eq_refl Ht).
    + destruct post as [|v post'].
      * inversion Hp. reflexivity.
      * cbn [classify] in Hp. cbn in Hv.
        destruct (String.eqb v "--") eqn:Hd.
        { inversion Hp. reflexivity. }
        destruct (parse_optional v); try discriminate;
          destruct (classify post'); try discriminate;
          inversion Hp; subst; cbn [Argparse.consume]; try reflexivity.
        destruct (get_values_and_store Device v p) as [p'|] eqn:E; [|reflexivity].
        destruct (get_values_and_store_cases _ _ _ _ E) as [[-> _]|[_ Ht]];
          [discriminate Hd|].
        apply take_action_checked, check_value_device in Ht.
        exfalso. exact (Hv v eq_refl Ht).
  - cbn [omitted forallb] in Hh. apply andb_true_iff in Hh.
    destruct Hh as [Hx Hh]. fold (omitted Help pre) in Hh.
    specialize (IH Hh). cbn [app classify].
    destruct (String.eqb x "--").
    + cbn [Argparse.consume]. destruct pending; [reflexivity|].
      apply consume_extras; [|apply add_extra_extras].
      clear. induction (pre ++ arg :: post); constructor; cbn; tauto.
    + unfold selects in Hx.
      destruct (parse_optional x) as [|a o' e'|]; [| |exact I];
        (destruct (classify (pre ++ arg :: post)) as [toks|];
         cbn [option_map]; [|exact I]);
        cbn [Argparse.consume]; destruct pending as [b|].
      * destruct (get_values_and_store b x p); [apply IH|reflexivity].
      * apply IH.
      * reflexivity.
      * destruct a as [a|]; [|apply IH].
        destruct a; cbn in Hx; try discriminate;
          (destruct e' as [v|]; [|apply IH]);
          match goal with
          | |- context [get_values_and_store ?a v p] =>
              destruct (get_values_and_store a v p); [apply IH|reflexivity]
          end.
Qed.

Lemma writes_empty_list_false (a : action) (arg o : string)
      (e : option string) :
  parse_optional arg = Optional (Some a) o e ->
  writes_empty_list a arg = false -> e <> Some "--".
Proof.
  unfold writes_empty_list. intros -> H ->.
  destruct (action_eq_dec a a); [discriminate H|congruence].
Qed.

Lemma parse_args_bad_device (pre : list string) (arg : string)
      (o : string) (e : option string) (post : list string) :
  omitted Help pre = true ->
  parse_optional arg = Optional (Some Device) o e ->
  writes_empty_list Device arg = false ->
  (forall v, given_value e post = Some v -> ~ device_ok v) ->
  parse_args (pre ++ arg :: post) = UsageError.
Proof.
  intros Hh Harg He Hv. unfold Argparse.parse_args.
  pose proof (consume_bad_device pre arg o e post Hh Harg
                (writes_empty_list_false _ _ _ _ Harg He) Hv None defaults)
    as H.
  destruct (classify (pre ++ arg :: post)); [exact H|reflexivity].
Qed.

(** A [store] keeps whatever [type] makes of the argument string: no
    range is checked and no value is replaced. *)
Lemma take_action_stores (p : partial) (v : string) :
  (exists p', take_action Text v p = Some p' /\ partial_attr Text p' = VStr v) /\
  (exists p', take_action Language v p = Some p' /\
              partial_attr Language p' = VStr v) /\
  (forall x, float_of_str v = Some x ->
             forall a, In a [Temperature; RepetitionPenalty; TopP] ->
                       exists p', take_action a v p = Some p' /\
                                  partial_attr a p' = VFloat x) /\
  (forall k, int_of_str v = Some k ->
             exists p', take_action TopK v p = Some p' /\
                        partial_attr TopK p' = VInt k).
Proof.
  repeat split.
  - eexists. split; reflexivity.
  - eexists. split; reflexivity.
  - intros x Hx a Ha. cbn in Ha.
    destruct Ha as [<-|[<-|[<-|[]]]]; unfold Argparse.take_action; cbn;
      rewrite Hx; eexists; split; reflexivity.
  - intros k Hk. unfold Argparse.take_action; cbn. rewrite Hk.
    eexists; split; reflexivity.
Qed.

(** *** More of the parser: required options, types, the two spellings *)

Lemma consume_no_help (toks : list tok) :
  Forall (fun t => ~ tok_selects Help t) toks ->
  forall pending p, consume toks pending p <> HelpExit.
Proof.
  intros Hall. induction Hall as [|t toks Ht Hall IH]; intros pending p.
  - cbn. destruct pending; [discriminate|]. unfold finish.
    destruct (p_base_model p), (p_finetuned p), (p_reference_audio p),
             (p_text p), (p_output p), (p_extras p); discriminate.
  - cbn [Argparse.consume]. destruct pending as [a|].
    + destruct t; try discriminate.
      destruct (get_values_and_store a arg p); [apply IH|discriminate].
    + destruct t as [arg| |[a|] o e]; try apply IH.
      cbn in Ht. destruct a; try tauto;
        (destruct e as [v|]; [|apply IH]);
        match goal with
        | |- context [get_values_and_store ?a v p] =>
            destruct (get_values_and_store a v p); [apply IH|discriminate]
        end.
Qed.

Lemma parse_args_no_help (argv : list string) :
  omitted Help argv = true -> parse_args argv <> HelpExit.
Proof.
  intros Hh. unfold Argparse.parse_args.
  destruct (classify argv) as [toks|] eqn:Hc; [|discriminate].
  apply consume_no_help. exact (classify_omitted Help argv toks Hc Hh).
Qed.

(** A required option that is omitted: the command line does not
    parse. *)
Lemma parse_args_required (a : action) (argv : list string) :
  required a = true ->
  omitted a argv = true ->
  (forall args, parse_args argv <> Parsed args) /\
  (omitted Help argv = true -> parse_args argv = UsageError).
Proof.
  intros Hr Ho.
  assert (Hn : forall args, parse_args argv <> Parsed args).
  { intros args Hp.
    assert (Hb : a <> Help) by (destruct a; discriminate).
    pose proof (parse_args_omitted a argv args Hb Hp Ho) as Hd.
    destruct a; try discriminate Hr; cbn in Hd;
      match type of Hd with
      | str_value ?x = _ => destruct x; discriminate Hd
      end. }
  split; [exact Hn|].
  intros Hh. pose proof (parse_args_no_help argv Hh) as Hnh.
  destruct (parse_args argv) as [args| |]; [|reflexivity|congruence].
  exfalso. exact (Hn args eq_refl).
Qed.

(** What ends in a usage error still does after a stretch of command
    line with no help option. *)
Lemma consume_after_prefix (pre rest : list string) :
  omitted Help pre = true ->
  (forall pending p,
      match classify rest with
      | Some toks => consume toks pending p = UsageError
      | None => True
      end) ->
  forall pending p,
    match classify (pre ++ rest) with
    | Some toks => consume toks pending p = UsageError
    | None => True
    end.
Proof.
  intros Hh Hrest. induction pre as [|x pre IH]; [exact Hrest|].
  intros pending p.
  cbn [omitted forallb] in Hh. apply andb_true_iff in Hh.
  destruct Hh as [Hx Hh]. fold (omitted Help pre) in Hh.
  specialize (IH Hh). cbn [app classify].
  destruct (String.eqb x "--").
  - cbn [Argparse.consume]. destruct pending; [reflexivity|].
    apply consume_extras; [|apply add_extra_extras].
    clear. induction (pre ++ rest); constructor; cbn; tauto.
  - unfold selects in Hx.
    destruct (parse_optional x) as [|a o' e'|]; [| |exact I];
      (destruct (classify (pre ++ rest)) as [toks|];
       cbn [option_map]; [|exact I]);
      cbn [Argparse.consume]; destruct pending as [b|].
    + destruct (get_values_and_store b x p); [apply IH|reflexivity].
    + apply IH.
    + reflexivity.
    + destruct a as [a|]; [|apply IH].
      destruct a; cbn in Hx; try discriminate;
        (destruct e' as [v|]; [|apply IH]);
        match goal with
        | |- context [get_values_and_store ?a v p] =>
            destruct (get_values_and_store a v p); [apply IH|reflexivity]
        end.
Qed.

(** An option that takes an argument, from where the parser meets it. *)
Lemma consume_store (a : action) (o : string) (e : option string)
      (toks : list tok) (p : partial) :
  a <> Help ->
  consume (O (Some a) o e :: toks) None p =
    match e with
    | Some v => match get_values_and_store a v p with
                | Some p' => consume toks None p'
                | None => UsageError
                end
    | None => consume toks (Some a) p
    end.
Proof. intros Ha. destruct a; try reflexivity. congruence. Qed.

(** An option given a value that its [type] or its [choices] refuse,
    and not written [--flag=--]. *)
Lemma parse_args_refused_value (a : action) (pre : list string) (arg : string)
      (o : string) (e : option string) (post : list string) :
  omitted Help pre = true ->
  parse_optional arg = Optional (Some a) o e ->
  a <> Help ->
  e <> Some "--" ->
  (forall v, given_value e post = Some v -> forall p, take_action a v p = None) ->
  parse_args (pre ++ arg :: post) = UsageError.
Proof.
  intros Hh Harg Ha He Hv. unfold Argparse.parse_args.
  assert (H : forall pending p,
             match classify (arg :: post) with
             | Some toks => consume toks pending p = UsageError
             | None => True
             end).
  { intros pending p. cbn [classify].
    rewrite (parse_optional_not_dashdash _ _ _ _ Harg), Harg.
    destruct (classify post) as [tr|] eqn:Hp; cbn [option_map]; [|exact I].
    destruct pending; [reflexivity|]. rewrite (consume_store a o e tr p Ha).
    destruct e as [v|].
    - unfold Argparse.get_values_and_store.
      destruct (String.eqb_spec v "--") as [->|_]; [congruence|].
      rewrite (Hv v eq_refl p). reflexivity.
    - destruct post as [|v post'].
      + inversion Hp. reflexivity.
      + cbn [classify] in Hp. cbn in Hv.
        destruct (String.eqb v "--") eqn:Hd.
        { inversion Hp. reflexivity. }
        destruct (parse_optional v); try discriminate;
          destruct (classify post'); try discriminate;
          inversion Hp; subst; cbn [Argparse.consume]; try reflexivity.
        unfold Argparse.get_values_and_store.
        rewrite Hd, (Hv v eq_refl p). reflexivity. }
  pose proof (consume_after_prefix pre (arg :: post) Hh H None defaults) as Hc.
  destruct (classify (pre ++ arg :: post)); [exact Hc|reflexivity].
Qed.

Lemma take_action_unconvertible (a : action) (v : string) (p : partial) :
  Given.unconvertible float_of_str int_of_str a v -> take_action a v p = None.
Proof.
  intros H. destruct a; cbn in H; try contradiction;
    unfold Argparse.take_action; cbn; rewrite H; reflexivity.
Qed.

(** An option that waits for its argument and meets a string that reads
    as an option, or the [--] separator. *)
Lemma parse_args_option_for_value (a : action) (pre : list string)
      (arg o v : string) (post : list string) :
  omitted Help pre = true ->
  parse_optional arg = Optional (Some a) o None ->
  a <> Help ->
  parse_optional v <> Positional ->
  parse_args (pre ++ arg :: v :: post) = UsageError.
Proof.
  intros Hh Harg Ha Hv. unfold Argparse.parse_args.
  assert (H : forall pending p,
             match classify (arg :: v :: post) with
             | Some toks => consume toks pending p = UsageError
             | None => True
             end).
  { intros pending p. cbn [classify].
    rewrite (parse_optional_not_dashdash _ _ _ _ Harg), Harg.
    destruct (String.eqb v "--").
    - cbn [option_map]. destruct pending; [reflexivity|].
      rewrite (consume_store a o None _ p Ha). reflexivity.
    - destruct (parse_optional v) as [|a' o' e'|]; [congruence| |exact I];
        (destruct (classify post); cbn [option_map]; [|exact I]).
      destruct pending; [reflexivity|].
      rewrite (consume_store a o None _ p Ha). reflexivity. }
  pose proof (consume_after_prefix pre (arg :: v :: post) Hh H None defaults)
    as Hc.
  destruct (classify (pre ++ arg :: v :: post)); [exact Hc|reflexivity].
Qed.

(** A string that does not begin with a dash is an argument. *)
Lemma parse_optional_plain (v : string) :
  Given.plain v = true ->
  parse_optional v = Positional /\ String.eqb v "--" = false.
Proof.
  destruct v as [|c v]; [split; reflexivity|].
  unfold Given.plain. intros H.
  assert (Hc : Ascii.eqb c "-" = false).
  { destruct (Ascii.eqb_spec c "-") as [->|]; [discriminate H|reflexivity]. }
  split.
  - unfold parse_optional. rewrite Hc. reflexivity.
  - cbn. rewrite Hc. reflexivity.
Qed.

(** The five required options written [--flag value], with values that
    do not begin with a dash. *)
Lemma parse_args_spaced_form (b f r t o : string) :
  Given.plain b = true -> Given.plain f = true -> Given.plain r = true ->
  Given.plain t = true -> Given.plain o = true ->
  parse_args (Given.spaced_form b f r t o) =
  Parsed (mkNamespace b f r t o "cs" 0.75%float 3.0%float 50 0.85%float "cpu").
Proof.
  intros Hb Hf Hr Ht Ho.
  destruct (parse_optional_plain b Hb) as [Pb Db].
  destruct (parse_optional_plain f Hf) as [Pf Df].
  destruct (parse_optional_plain r Hr) as [Pr Dr].
  destruct (parse_optional_plain t Ht) as [Pt Dt].
  destruct (parse_optional_plain o Ho) as [Po Do].
  unfold Argparse.parse_args, Given.spaced_form.
  assert (Hc : classify
                 ["--base-model"; b; "--finetuned"; f; "--reference-audio"; r;
                  "--text"; t; "--output"; o] =
               Some [O (Some BaseModel) "--base-model" None; A b;
                     O (Some Finetuned) "--finetuned" None; A f;
                     O (Some ReferenceAudio) "--reference-audio" None; A r;
                     O (Some Text) "--text" None; A t;
                     O (Some Output) "--output" None; A o]).
  { cbn [classify].
    change (String.eqb "--base-model" "--") with false.
    change (parse_optional "--base-model")
      with (Optional (Some BaseModel) "--base-model" None).
    change (String.eqb "--finetuned" "--") with false.
    change (parse_optional "--finetuned")
      with (Optional (Some Finetuned) "--finetuned" None).
    change (String.eqb "--reference-audio" "--") with false.
    change (parse_optional "--reference-audio")
      with (Optional (Some ReferenceAudio) "--reference-audio" None).
    change (String.eqb "--text" "--") with false.
    change (parse_optional "--text") with (Optional (Some Text) "--text" None).
    change (String.eqb "--output" "--") with false.
    change (parse_optional "--output")
      with (Optional (Some Output) "--output" None).
    cbv iota. rewrite Db, Pb, Df, Pf, Dr, Pr, Dt, Pt, Do, Po. reflexivity. }
  rewrite Hc. cbn [Argparse.consume].
  unfold Argparse.get_values_and_store. rewrite Db, Df, Dr, Dt, Do.
  reflexivity.
Qed.

(** [--flag=value] is read as the flag with that value, whatever the
    value. *)
Lemma parse_optional_equals (a : action) (flag v : string) :
  In (flag, a) [("--base-model", BaseModel); ("--finetuned", Finetuned);
                ("--reference-audio", ReferenceAudio); ("--text", Text);
                ("--output", Output); ("--language", Language);
                ("--temperature", Temperature);
                ("--repetition-penalty", RepetitionPenalty);
                ("--top-k", TopK); ("--top-p", TopP); ("--device", Device)] ->
  parse_optional (flag ++ "=" ++ v) = Optional (Some a) flag (Some v) /\
  String.eqb (flag ++ "=" ++ v) "--" = false.
Proof.
  intros H. cbn in H.
  repeat (destruct H as [H|H]; [inversion H; subst; split; reflexivity|]).
  contradiction.
Qed.

(** One option written [--flag=v]: what it leaves in its attribute. *)
Lemma store_str (a : action) (v : string) (p : partial) :
  In a [BaseModel; Finetuned; ReferenceAudio; Text; Output; Language] ->
  exists p',
    get_values_and_store a v p = Some p' /\
    partial_attr a p' = str_value (Given.stored v) /\
    p_extras p' = p_extras p /\
    forall b, a <> b -> partial_attr b p' = partial_attr b p.
Proof.
  intros Ha. unfold Argparse.get_values_and_store, Given.stored.
  destruct (String.eqb v "--").
  - eexists. split; [reflexivity|].
    split; [|split; [apply store_empty_list_extras|
                     intros b; apply store_empty_list_frame]].
    cbn in Ha. repeat (destruct Ha as [<-|Ha]; [reflexivity|]). contradiction.
  - cbn in Ha.
    repeat (destruct Ha as [<-|Ha];
            [eexists; split; [reflexivity|];
             split; [reflexivity|split; [reflexivity|]];
             intros b Hb; destruct b; try reflexivity; congruence|]).
    contradiction.
Qed.

Lemma store_float (a : action) (v : string) (x : attribute float)
      (p : partial) :
  In a [Temperature; RepetitionPenalty; TopP] ->
  Given.converted float_of_str v x ->
  exists p',
    get_values_and_store a v p = Some p' /\
    partial_attr a p' = float_value x /\
    p_extras p' = p_extras p /\
    forall b, a <> b -> partial_attr b p' = partial_attr b p.
Proof.
  intros Ha. unfold Argparse.get_values_and_store, Given.converted.
  destruct (String.eqb v "--").
  - intros ->. eexists. split; [reflexivity|].
    split; [|split; [apply store_empty_list_extras|
                     intros b; apply store_empty_list_frame]].
    cbn in Ha. repeat (destruct Ha as [<-|Ha]; [reflexivity|]). contradiction.
  - intros (y & Hy & ->). cbn in Ha.
    repeat (destruct Ha as [<-|Ha];
            [unfold Argparse.take_action; cbn; rewrite Hy;
             eexists; split; [reflexivity|];
             split; [reflexivity|split; [reflexivity|]];
             intros b Hb; destruct b; try reflexivity; congruence|]).
    contradiction.
Qed.

Lemma store_int (v : string) (x : attribute Z) (p : partial) :
  Given.converted int_of_str v x ->
  exists p',
    get_values_and_store TopK v p = Some p' /\
    partial_attr TopK p' = int_value x /\
    p_extras p' = p_extras p /\
    forall b, TopK <> b -> partial_attr b p' = partial_attr b p.
Proof.
  unfold Argparse.get_values_and_store, Given.converted.
  destruct (String.eqb v "--").
  - intros ->. eexists. split; [reflexivity|].
    split; [reflexivity|split; [reflexivity|]].
    intros b; apply store_empty_list_frame.
  - intros (y & Hy & ->).
    unfold Argparse.take_action; cbn; rewrite Hy.
    eexists; split; [reflexivity|].
    split; [reflexivity|split; [reflexivity|]].
    intros b Hb; destruct b; try reflexivity; congruence.
Qed.

Lemma store_device (v : string) (p : partial) :
  v = "--" \/ device_ok v ->
  exists p',
    get_values_and_store Device v p = Some p' /\
    partial_attr Device p' = str_value (Given.stored v) /\
    p_extras p' = p_extras p /\
    forall b, Device <> b -> partial_attr b p' = partial_attr b p.
Proof.
  unfold Argparse.get_values_and_store, Given.stored.
  intros [->|Hd].
  - eexists. split; [reflexivity|].
    split; [reflexivity|split; [reflexivity|]].
    intros b; apply store_empty_list_frame.
  - assert (Hv : String.eqb v "--" = false) by (destruct Hd as [->| ->]; reflexivity).
    rewrite Hv.
    assert (Ht : take_action Device v p =
                 Some (mkPartial (p_base_model p) (p_finetuned p)
                         (p_reference_audio p) (p_text p) (p_output p)
                         (p_language p) (p_temperature p)
                         (p_repetition_penalty p) (p_top_k p) (p_top_p p)
                         v (p_extras p)))
      by (destruct Hd as [->| ->]; reflexivity).
    rewrite Ht. eexists. split; [reflexivity|].
    split; [reflexivity|split; [reflexivity|]].
    intros b Hb; destruct b; try reflexivity; congruence.
Qed.

Lemma finish_attributes (p : partial) (args : Attributes) :
  p_extras p = [] ->
  (forall b, b <> Help -> partial_attr b p = attr b args) ->
  finish p = Parsed args.
Proof.
  intros Hx H. unfold finish. rewrite Hx.
  pose proof (H BaseModel ltac:(discriminate)) as H1.
  pose proof (H Finetuned ltac:(discriminate)) as H2.
  pose proof (H ReferenceAudio ltac:(discriminate)) as H3.
  pose proof (H Text ltac:(discriminate)) as H4.
  pose proof (H Output ltac:(discriminate)) as H5.
  pose proof (H Language ltac:(discriminate)) as H6.
  pose proof (H Temperature ltac:(discriminate)) as H7.
  pose proof (H RepetitionPenalty ltac:(discriminate)) as H8.
  pose proof (H TopK ltac:(discriminate)) as H9.
  pose proof (H TopP ltac:(discriminate)) as H10.
  pose proof (H Device ltac:(discriminate)) as H11.
  destruct args, p. cbn in *.
  repeat match goal with
         | H : opt_str ?o = _ |- _ => destruct o; cbn in H
         | H : str_value ?x = str_value ?y |- _ =>
             apply str_value_inj in H; subst
         | H : VNone = str_value ?x |- _ => destruct x; discriminate H
         | H : float_value ?x = float_value ?y |- _ =>
             assert (x = y) by (destruct x, y; cbn in H; congruence);
             clear H; subst
         | H : int_value ?x = int_value ?y |- _ =>
             assert (x = y) by (destruct x, y; cbn in H; congruence);
             clear H; subst
         end.
  reflexivity.
Qed.

(** The eleven options written [--flag=value]: what is stored is the
    text after [=], converted by the option's [type], or the empty list
    where that text is [--]. *)
Lemma parse_args_equals_form (b f r t o l tmp rp k p d : string)
      (x y z : attribute float) (n : attribute Z) :
  Given.converted float_of_str tmp x ->
  Given.converted float_of_str rp y ->
  Given.converted int_of_str k n ->
  Given.converted float_of_str p z ->
  d = "--" \/ device_ok d ->
  parse_args (Given.equals_form b f r t o l tmp rp k p d) =
  Parsed (mkAttributes (Given.stored b) (Given.stored f) (Given.stored r)
            (Given.stored t) (Given.stored o) (Given.stored l) x y n z
            (Given.stored d)).
Proof.
  intros Ht Hr Hk Hp Hd.
  unfold Argparse.parse_args, Given.equals_form.
  match goal with
  | |- context [classify ?args] =>
      assert (Hc : classify args =
               Some [O (Some BaseModel) "--base-model" (Some b);
                     O (Some Finetuned) "--finetuned" (Some f);
                     O (Some ReferenceAudio) "--reference-audio" (Some r);
                     O (Some Text) "--text" (Some t);
                     O (Some Output) "--output" (Some o);
                     O (Some Language) "--language" (Some l);
                     O (Some Temperature) "--temperature" (Some tmp);
                     O (Some RepetitionPenalty) "--repetition-penalty" (Some rp);
                     O (Some TopK) "--top-k" (Some k);
                     O (Some TopP) "--top-p" (Some p);
                     O (Some Device) "--device" (Some d)]) by reflexivity
  end.
  rewrite Hc. cbn [Argparse.consume].
  destruct (store_str BaseModel b defaults ltac:(cbn; tauto))
    as (p1 & -> & A1 & X1 & F1).
  destruct (store_str Finetuned f p1 ltac:(cbn; tauto))
    as (p2 & -> & A2 & X2 & F2).
  destruct (store_str ReferenceAudio r p2 ltac:(cbn; tauto))
    as (p3 & -> & A3 & X3 & F3).
  destruct (store_str Text t p3 ltac:(cbn; tauto))
    as (p4 & -> & A4 & X4 & F4).
  destruct (store_str Output o p4 ltac:(cbn; tauto))
    as (p5 & -> & A5 & X5 & F5).
  destruct (store_str Language l p5 ltac:(cbn; tauto))
    as (p6 & -> & A6 & X6 & F6).
  destruct (store_float Temperature tmp x p6 ltac:(cbn; tauto) Ht)
    as (p7 & -> & A7 & X7 & F7).
  destruct (store_float RepetitionPenalty rp y p7 ltac:(cbn; tauto) Hr)
    as (p8 & -> & A8 & X8 & F8).
  destruct (store_int k n p8 Hk) as (p9 & -> & A9 & X9 & F9).
  destruct (store_float TopP p z p9 ltac:(cbn; tauto) Hp)
    as (p10 & -> & A10 & X10 & F10).
  destruct (store_device d p10 Hd) as (p11 & -> & A11 & X11 & F11).
  apply finish_attributes.
  - rewrite X11, X10, X9, X8, X7, X6, X5, X4, X3, X2, X1. reflexivity.
  - intros c Hc'. destruct c; try congruence; cbn [attr ns_base_model
      ns_finetuned ns_reference_audio ns_text ns_output ns_language
      ns_temperature ns_repetition_penalty ns_top_k ns_top_p ns_device];
      repeat first
             [ assumption
             | rewrite F11 by discriminate
             | rewrite F10 by discriminate
             | rewrite F9 by discriminate
             | rewrite F8 by discriminate
             | rewrite F7 by discriminate
             | rewrite F6 by discriminate
             | rewrite F5 by discriminate
             | rewrite F4 by discriminate
             | rewrite F3 by discriminate
             | rewrite F2 by discriminate ].
Qed.

(** A [store] of an argument string leaves no empty list. *)
Lemma take_action_not_empty (a b : action) (v : string) (p p' : partial) :
  take_action a v p = Some p' ->
  partial_attr b p <> VEmptyList -> partial_attr b p' <> VEmptyList.
Proof.
  intros H Hb. destruct (action_eq_dec a b) as [<-|Hab].
  - take_action_cases a H; cbn; discriminate.
  - rewrite (take_action_frame _ _ _ _ _ H Hab). exact Hb.
Qed.

(** The attribute of an option that is nowhere written [--flag=--] is
    not the empty list. *)
Lemma consume_not_empty (b : action) (argv : list string) :
  Forall (fun arg => writes_empty_list b arg = false) argv ->
  forall pending p args,
    partial_attr b p <> VEmptyList ->
    match classify argv with
    | Some toks =>
        consume toks pending p = Parsed args -> attr b args <> VEmptyList
    | None => True
    end.
Proof.
  intros Hall. induction Hall as [|x rest Hx Hall IH]; intros pending p args Hp.
  - cbn. destruct pending; [discriminate|]. intros H.
    destruct (action_eq_dec b Help) as [->|Hb]; [discriminate|].
    apply finish_parsed in H. destruct H as [_ H].
    rewrite <- (H b Hb). exact Hp.
  - cbn [classify]. destruct (String.eqb x "--") eqn:Hd.
    + cbn [Argparse.consume]. destruct pending; [discriminate|].
      rewrite consume_extras; [discriminate| |apply add_extra_extras].
      clear. induction rest; constructor; cbn; tauto.
    + unfold writes_empty_list in Hx.
      destruct (parse_optional x) as [|a o e|]; [| |exact I];
        (destruct (classify rest) as [toks|] eqn:Hc;
         cbn [option_map]; [|exact I]).
      * cbn [Argparse.consume]. destruct pending as [c|].
        -- unfold Argparse.get_values_and_store. rewrite Hd.
           destruct (take_action c x p) as [p'|] eqn:E; [|discriminate].
           apply IH. exact (take_action_not_empty _ _ _ _ _ E Hp).
        -- apply IH. rewrite add_extra_frame. exact Hp.
      * destruct pending as [c|]; [cbn [Argparse.consume]; discriminate|].
        destruct a as [a|];
          [|cbn [Argparse.consume]; apply IH; rewrite add_extra_frame;
            exact Hp].
        intros H.
        assert (Ha : a <> Help).
        { intros ->. cbn in H. unfold help_action in H.
          destruct e; [|discriminate]. destruct (_ && _); discriminate. }
        rewrite (consume_store a o e toks p Ha) in H.
        destruct e as [v|]; [|exact (IH _ _ _ Hp H)].
        destruct (get_values_and_store a v p) as [p'|] eqn:E; [|discriminate].
        apply (IH None p' args); [|exact H].
        destruct (action_eq_dec a b) as [->|Hab].
        -- destruct (action_eq_dec b b) as [_|]; [|congruence].
           unfold Argparse.get_values_and_store in E. rewrite Hx in E.
           exact (take_action_not_empty _ _ _ _ _ E Hp).
        -- rewrite (get_values_and_store_frame _ _ _ _ _ E Hab). exact Hp.
Qed.

Lemma parse_args_not_empty (b : action) (argv : list string)
      (args : Attributes) :
  Forall (fun arg => writes_empty_list b arg = false) argv ->
  parse_args argv = Parsed args -> attr b args <> VEmptyList.
Proof.
  intros Hall. unfold Argparse.parse_args.
  pose proof (consume_not_empty b argv Hall None defaults args) as H.
  destruct (classify argv); [|discriminate].
  apply H. destruct b; discriminate.
Qed.

Lemma parse_args_device_named (argv : list string) (args : Attributes) :
  no_empty_device argv ->
  parse_args argv = Parsed args -> device_named (ns_device args).
Proof.
  intros Hn Hp.
  pose proof (parse_args_not_empty Device argv args Hn Hp) as He.
  destruct (parse_args_device argv args Hp) as [H|[H|H]];
    [left; exact H|right; exact H|].
  exfalso. apply He. cbn. rewrite H. reflexivity.
Qed.

Lemma classify_some (argv : list string) :
  Forall (fun arg => parse_optional arg <> Ambiguous) argv ->
  exists toks, classify argv = Some toks.
Proof.
  intros H. induction H as [|arg rest Ha _ [toks IH]]; [exists []; reflexivity|].
  cbn [classify]. destruct (String.eqb arg "--"); [eexists; reflexivity|].
  rewrite IH. destruct (parse_optional arg); [| |congruence];
    eexists; reflexivity.
Qed.

(** The help option first on the command line. *)
Lemma parse_args_help_first (arg o : string) (rest : list string) :
  parse_optional arg = Optional (Some Help) o None ->
  Forall (fun arg => parse_optional arg <> Ambiguous) rest ->
  parse_args (arg :: rest) = HelpExit.
Proof.
  intros Harg Hrest. unfold Argparse.parse_args. cbn [classify].
  rewrite (parse_optional_not_dashdash _ _ _ _ Harg), Harg.
  destruct (classify_some rest Hrest) as [toks ->]. reflexivity.
Qed.

End Parser.

End ArgparseFacts.

(** ** Running the script *)

Section Runs.

Variable W : World.

Local Open Scope list_scope.

Local Abbreviation parse_args :=
  (Argparse.parse_args (float_of_str W) (int_of_str W)).

(** *** Tactics and lemmas *)

(** A run step by step: unfold the script's functions and the monad,
    then ask the world for each answer in turn. *)
Ltac unfold_script :=
  unfold script, main_body, load_model, compute_speaker_latents,
    generate_speech, save_audio, imports, guarded_imports,
    try_except_ImportError, bind, do_call, os_path_exists, os_path_join,
    print, emit, lift, raise, sys_exit, ret in *;
  cbn [attributes_of of_str of_float of_int ns_base_model ns_finetuned
       ns_reference_audio ns_text ns_output ns_language ns_temperature
       ns_repetition_penalty ns_top_k ns_top_p ns_device format slice] in *.

(** The attributes of a namespace one by one. *)
Ltac open_namespace :=
  repeat match goal with
         | a : Attributes |- _ => destruct a
         end.

Ltac answer :=
  match goal with
  | H : respond W ?c ?s = _ |- context [respond W ?c ?s] => rewrite H; cbn
  | H : unpack2 W ?o = _ |- context [unpack2 W ?o] => rewrite H; cbn
  | H : ndim W ?o = _ |- context [ndim W ?o] => rewrite H; cbn
  | H : is_tensor W ?o = _ |- context [is_tensor W ?o] => rewrite H; cbn
  | H : Z.eqb ?n 1 = _ |- context [Z.eqb ?n 1] => rewrite H; cbn
  | |- context [respond W ?c ?s] =>
      let e := fresh "e" in
      let o := fresh "o" in
      let s' := fresh "s" in
      let R := fresh "R" in
      destruct (respond W c s) as [[e|o] s'] eqn:R; cbn
  | |- context [unpack2 W ?o] =>
      let U := fresh "U" in
      destruct (unpack2 W o) as [?e|[?g ?e]] eqn:U; cbn
  | |- context [ndim W ?o] =>
      let N := fresh "N" in
      destruct (ndim W o) as [?e|?n] eqn:N; cbn
  | |- context [is_tensor W ?o] =>
      let T := fresh "T" in
      destruct (is_tensor W o) eqn:T; cbn
  | |- context [Z.eqb ?n 1] =>
      let Q := fresh "Q" in
      destruct (Z.eqb n 1) eqn:Q; cbn
  | |- context [match ?x with Value _ => _ | EmptyList => _ end] =>
      is_var x; destruct x; cbn
  end.

(** The same when the paths are not known to exist. *)
Ltac answer_paths :=
  repeat first
         [ answer
         | match goal with
           | |- context [path_exists W ?s ?p] =>
               let E := fresh "E" in
               destruct (path_exists W s p) eqn:E; cbn
           end ].

Lemma main_parsed (argv : list string) (args : Attributes) :
  parse_args argv = Argparse.Parsed args -> main W argv = main_body W args.
Proof. unfold main. intros ->. reflexivity. Qed.

Lemma script_after_imports (argv : list string) (s0 s : state W)
      (t0 : list (entry W)) :
  imports W s0 = (Ok tt, s, t0) ->
  script W argv s0 =
    (outcome (main W argv s), final_state (main W argv s),
     t0 ++ trace (main W argv s)).
Proof.
  intros H. unfold script, bind. rewrite H.
  destruct (main W argv s) as [[r s'] t]. reflexivity.
Qed.

(** Imports that succeed print nothing and run no step. *)
Lemma imports_ok (s0 s : state W) (t0 : list (entry W)) :
  imports W s0 = (Ok tt, s, t0) ->
  stderr t0 = [] /\ checked_paths t0 = [] /\ steps t0 = [] /\
  calls t0 = [Import "torch"; Import "TTS.tts.configs.xtts_config";
              Import "TTS.tts.models.xtts"].
Proof.
  unfold_script. repeat answer; intros H; inversion H; subst;
    try (destruct e; discriminate); auto.
Qed.

(** [main] when one of the three inputs is missing. *)
Lemma main_body_missing_input (args : Namespace) (s : state W) :
  path_exists W s (base_model args) = false \/
  path_exists W s (finetuned args) = false \/
  path_exists W s (reference_audio args) = false ->
  exists label path before after,
    required_inputs args = before ++ (label, path) :: after /\
    Forall (fun i => path_exists W s (snd i) = true) before /\
    path_exists W s path = false /\
    let r := main_body W args s in
    outcome r = Abort (SysExit 1) /\
    final_state r = s /\
    stderr (trace r) = [not_found label path] /\
    checked_paths (trace r) = map snd before ++ [path] /\
    calls (trace r) = [] /\
    steps (trace r) = [].
Proof.
  intros H. unfold_script. unfold outcome, final_state, trace.
  destruct (path_exists W s (base_model args)) eqn:E1; cbn.
  - destruct (path_exists W s (finetuned args)) eqn:E2; cbn.
    + destruct (path_exists W s (reference_audio args)) eqn:E3; cbn.
      * exfalso. intuition discriminate.
      * exists "Reference audio", (reference_audio args),
          [("Base model", base_model args);
           ("Finetuned checkpoint", finetuned args)], [].
        cbn. repeat split; auto.
    + exists "Finetuned checkpoint", (finetuned args),
        [("Base model", base_model args)],
        [("Reference audio", reference_audio args)].
      cbn. repeat split; auto.
  - exists "Base model", (base_model args), [],
      [("Finetuned checkpoint", finetuned args);
       ("Reference audio", reference_audio args)].
    cbn. repeat split; auto.
Qed.

Ltac check_paths args s :=
  destruct (path_exists W s (base_model args)) eqn:?E1; cbn;
  [destruct (path_exists W s (finetuned args)) eqn:?E2; cbn;
   [destruct (path_exists W s (reference_audio args)) eqn:?E3; cbn|]|].

Ltac run_main_body args s :=
  unfold_script; unfold outcome, final_state, trace; check_paths args s;
  repeat answer.

Lemma completed_app (st : step) (t1 t2 : list (entry W)) :
  completed st (t1 ++ t2) = completed st t1 || completed st t2.
Proof. apply existsb_app. Qed.

Lemma imports_no_step (st : step) (s0 : state W) :
  completed st (trace (imports W s0)) = false.
Proof.
  unfold_script. unfold trace.
  repeat answer; try (destruct e); cbn; destruct st; reflexivity.
Qed.

(** [main] ends well once the audio is written. *)
Lemma main_body_written (args : Attributes) (s : state W) :
  let r := main_body W args s in
  completed WriteAudio (trace r) = true ->
  outcome r = Ok tt /\
  exists t, trace r = t ++ [Stderr "SUCCESS"] /\
            ~ In (Stderr "SUCCESS") t.
Proof.
  open_namespace. unfold_script. unfold outcome, final_state, trace.
  answer_paths; intros H; try discriminate H.
  all: split; [reflexivity|].
  all: match goal with
       | |- exists t, ?l = t ++ _ /\ _ =>
           exists (removelast l); split; [reflexivity|]
       end.
  all: cbn; intuition discriminate.
Qed.

Lemma In_stderr (line : string) (t : list (entry W)) :
  In (Stderr line) t -> In line (stderr t).
Proof.
  unfold stderr. intros H. apply in_flat_map.
  exists (Stderr line). split; [exact H|left; reflexivity].
Qed.

Ltac forall_trace :=
  repeat first [apply Forall_nil | apply Forall_cons; [cbn; auto 10|]].

Ltac in_trace :=
  unfold returned; cbn; solve [repeat first [left; reflexivity | right]].

Ltac written :=
  unfold written_from;
  first
    [ solve [eexists; eexists; split; [left; reflexivity|];
             split; [left; reflexivity|]; in_trace]
    | solve [eexists; eexists; split; [left; reflexivity|];
             split; [right; in_trace|]; in_trace]
    | solve [eexists; eexists; split; [right; in_trace|];
             split; [left; reflexivity|]; in_trace]
    | solve [eexists; eexists; split; [right; in_trace|];
             split; [right; in_trace|]; in_trace] ].

Ltac fed :=
  cbn [all_fed fed_by app];
  repeat match goal with
         | |- True => exact I
         | |- _ /\ _ => split
         | |- written_from _ _ _ => written
         | |- exists _, _ => eexists
         | |- returned _ _ _ => in_trace
         | |- unpack2 W _ = _ => eassumption
         end.

Lemma imports_rate (rate : Z) (s0 : state W) :
  Forall (written_rate rate) (trace (imports W s0)).
Proof.
  unfold_script. unfold trace.
  repeat answer; try (destruct e); cbn; forall_trace.
Qed.

Lemma main_body_rate (args : Attributes) (s : state W) :
  Forall (written_rate default_sample_rate) (trace (main_body W args s)).
Proof.
  open_namespace. unfold_script. unfold trace. answer_paths; forall_trace.
Qed.

Lemma main_body_writes (args : Attributes) (s : state W) :
  let r := main_body W args s in
  outcome r = Ok tt ->
  exists src o,
    returned (trace r)
             (torchaudio_save (ns_output args) src default_sample_rate) o.
Proof.
  cbn zeta. open_namespace. unfold_script. unfold outcome, trace.
  answer_paths; intros H; try discriminate H.
  all: cbn [ns_output]; do 2 eexists; in_trace.
Qed.

(** Every inference call and every device named to torch in a run of
    [main] takes what the namespace holds, and a run that ends well has
    made those calls. *)
Lemma main_body_options (args : Attributes) (s : state W) :
  let r := main_body W args s in
  Forall (takes_options args) (trace r) /\
  (outcome r = Ok tt -> options_used args (trace r)).
Proof.
  cbn zeta. open_namespace. unfold_script. unfold outcome, trace.
  answer_paths; (split; [forall_trace|]); intros H; try discriminate H.
  all: unfold options_used;
    cbn [ns_text ns_language ns_temperature ns_repetition_penalty ns_top_k
         ns_top_p ns_device].
  all: do 6 eexists; split; [in_trace|split; in_trace].
Qed.

Lemma script_parsed (argv : list string) (args : Attributes)
      (s0 s : state W) (t0 : list (entry W)) :
  imports W s0 = (Ok tt, s, t0) ->
  parse_args argv = Argparse.Parsed args ->
  outcome (script W argv s0) = outcome (main_body W args s) /\
  trace (script W argv s0) = t0 ++ trace (main_body W args s).
Proof.
  intros Hi Hp.
  rewrite (script_after_imports argv _ _ _ Hi), (main_parsed _ _ Hp).
  split; reflexivity.
Qed.

(** *** The properties of the specification *)

(** C1.  When the imports succeeded and the command line parsed, and one
    of the three input paths does not exist, the process ends with
    status 1; the one line it prints on stderr names a missing path
    among the three, the first that is missing in the order base model,
    checkpoint, reference audio; the paths before it were found, none
    after it was looked at, no step of the pipeline was started and no
    third-party code ran after the imports. *)
Theorem missing_input_path_exits_1
        (argv : list string) (args : Namespace) (s0 s : state W)
        (t0 : list (entry W)) :
  imports W s0 = (Ok tt, s, t0) ->
  parse_args argv = Argparse.Parsed args ->
  path_exists W s (base_model args) = false \/
  path_exists W s (finetuned args) = false \/
  path_exists W s (reference_audio args) = false ->
  exists label path before after,
    required_inputs args = before ++ (label, path) :: after /\
    Forall (fun i => path_exists W s (snd i) = true) before /\
    path_exists W s path = false /\
    let r := script W argv s0 in
    outcome r = Abort (SysExit 1) /\
    exit_status (outcome r) = 1 /\
    stderr (trace r) = [not_found label path] /\
    checked_paths (trace r) = map snd before ++ [path] /\
    calls (trace r) = calls t0 /\
    steps (trace r) = [].
Proof.
  intros Hi Hp Hm.
  destruct (main_body_missing_input args s Hm)
    as (label & path & before & after & Hin & Hb & Hex & Ho & Hs & He & Hk
        & Hc & Hst).
  exists label, path, before, after.
  split; [exact Hin|]. split; [exact Hb|]. split; [exact Hex|].
  destruct (imports_ok _ _ _ Hi) as (Ie & Ik & Is & _).
  cbn zeta. rewrite (script_after_imports argv _ _ _ Hi), (main_parsed _ _ Hp).
  unfold outcome, trace in *. cbn [fst snd].
  rewrite Ho. unfold stderr, checked_paths, steps in *.
  unfold calls in *. rewrite !flat_map_app.
  rewrite Ie, He, Ik, Hk, Hc, app_nil_r. cbn [app exit_status].
  repeat split. rewrite app_nil_r. exact Is.
Qed.

(** C3.  When a guarded import raises [ImportError], the process ends
    with status 1 after printing the two lines of the installation hint;
    only imports ran before that: the command line was not parsed and no
    path was looked at, so the run is the same for every command line. *)
Theorem missing_packages_exit_before_arguments
        (argv : list string) (s0 : state W) (msg : string) :
  outcome (guarded_imports W s0) = Abort (Raise (ImportError msg)) ->
  let r := script W argv s0 in
  outcome r = Abort (SysExit 1) /\
  exit_status (outcome r) = 1 /\
  stderr (trace r) =
    ["ERROR: Required packages not installed. Install with:";
     "pip install TTS torch"] /\
  trace r =
    trace (guarded_imports W s0) ++
    [Stderr "ERROR: Required packages not installed. Install with:";
     Stderr "pip install TTS torch"] /\
  Forall (fun e => exists m x, e = Call (Import m) x)
         (trace (guarded_imports W s0)) /\
  checked_paths (trace r) = [] /\
  steps (trace r) = [] /\
  forall argv', script W argv' s0 = r.
Proof.
  unfold_script. unfold outcome, trace.
  repeat answer; intros H; inversion H; subst; cbn;
    repeat split; repeat constructor; eauto.
Qed.


(** C5.  When the four delegated steps completed, the run ends without
    an exception or [sys.exit], so the exit status is 0, and the last
    thing the process did was to print the line [SUCCESS] on stderr,
    which it printed once. *)
Theorem all_steps_complete_success (argv : list string) (s0 : state W) :
  let r := script W argv s0 in
  (forall st, In st pipeline -> completed st (trace r) = true) ->
  outcome r = Ok tt /\
  exit_status (outcome r) = 0 /\
  exists t, trace r = t ++ [Stderr "SUCCESS"] /\
            ~ In (Stderr "SUCCESS") t.
Proof.
  cbn zeta. intros H.
  specialize (H WriteAudio ltac:(cbn; tauto)).
  pose proof (imports_no_step WriteAudio s0) as Hn.
  unfold script, bind in *.
  destruct (imports W s0) as [[[[]|x] s] t0] eqn:Hi; unfold trace in *;
    cbn [fst snd] in *; [|congruence].
  destruct (imports_ok _ _ _ Hi) as (Ie & _).
  unfold main in *.
  destruct (parse_args argv) as [args| |].
  - pose proof (main_body_written args s) as Hw. cbn zeta in Hw.
    destruct (main_body W args s) as [[r1 s1] t1].
    unfold outcome, trace in *. cbn [fst snd] in *.
    rewrite completed_app, Hn in H. cbn [orb] in H.
    destruct (Hw H) as (-> & t & -> & Hnot).
    repeat split. exists (t0 ++ t). rewrite app_assoc. split; [reflexivity|].
    intros Hin. apply in_app_or in Hin. destruct Hin as [Hin|Hin]; [|tauto].
    apply In_stderr in Hin. rewrite Ie in Hin. exact Hin.
  - cbn -[completed app] in H. rewrite completed_app, Hn in H. discriminate H.
  - cbn -[completed app] in H. rewrite completed_app, Hn in H. discriminate H.
Qed.


(** C7.  The synthesis parameters go from the command line to the model
    untouched: a [store] keeps whatever [str], [float] or [int] make of
    the argument string; every inference call of a run passes the text,
    language, temperature, repetition penalty, top-k and top-p of the
    parsed namespace; and once the conditioning latents are there the
    inference call is made, whatever those values are. *)
Theorem synthesis_parameters_pass_through (args : Namespace) (s : state W) :
  let r := main_body W args s in
  Forall (passes_parameters args) (trace r) /\
  (completed ComputeLatents (trace r) = true -> In Synthesize (steps (trace r))) /\
  forall p v,
    (exists p', Argparse.take_action (float_of_str W) (int_of_str W)
                  Argparse.Text v p = Some p' /\
                partial_attr Argparse.Text p' = VStr v) /\
    (exists p', Argparse.take_action (float_of_str W) (int_of_str W)
                  Argparse.Language v p = Some p' /\
                partial_attr Argparse.Language p' = VStr v) /\
    (forall x, float_of_str W v = Some x ->
               forall a, In a [Argparse.Temperature;
                               Argparse.RepetitionPenalty; Argparse.TopP] ->
                         exists p', Argparse.take_action
                                      (float_of_str W) (int_of_str W) a v p
                                    = Some p' /\
                                    partial_attr a p' = VFloat x) /\
    (forall k, int_of_str W v = Some k ->
               exists p', Argparse.take_action (float_of_str W) (int_of_str W)
                            Argparse.TopK v p = Some p' /\
                          partial_attr Argparse.TopK p' = VInt k).
Proof.
  cbn zeta. split; [|split].
  - run_main_body args s; forall_trace.
  - run_main_body args s; intros H; try discriminate H; cbn; auto 10.
  - intros p v. apply ArgparseFacts.take_action_stores.
Qed.

(** C8.  [compute_speaker_latents] is the same computation for every
    [device]: the same third-party code with the same arguments, the
    same result and the same effect on the world.  What it runs is
    [get_conditioning_latents] on the model and the reference audio,
    after reading the model's configuration. *)
Theorem compute_speaker_latents_ignores_device
        (model : obj W) (reference_audio_path device1 device2 : string) :
  compute_speaker_latents W model reference_audio_path device1 =
  compute_speaker_latents W model reference_audio_path device2 /\
  forall s,
    Forall (latents_entry model reference_audio_path)
           (trace (compute_speaker_latents W model reference_audio_path
                                           device1 s)).
Proof.
  split; [reflexivity|].
  intros s. unfold_script. unfold trace.
  repeat answer; forall_trace.
Qed.



(** *** The rest of the script: tactics and lemmas *)

Lemma script_usage (argv : list string) (s0 s : state W)
      (t0 : list (entry W)) :
  imports W s0 = (Ok tt, s, t0) ->
  parse_args argv = Argparse.UsageError ->
  script W argv s0 = (Abort (SysExit 2), s, t0 ++ [Usage]).
Proof.
  intros Hi Hp. rewrite (script_after_imports argv _ _ _ Hi).
  unfold main. rewrite Hp. reflexivity.
Qed.

Lemma script_help (argv : list string) (s0 s : state W)
      (t0 : list (entry W)) :
  imports W s0 = (Ok tt, s, t0) ->
  parse_args argv = Argparse.HelpExit ->
  script W argv s0 = (Abort (SysExit 0), s, t0 ++ [HelpText]).
Proof.
  intros Hi Hp. rewrite (script_after_imports argv _ _ _ Hi).
  unfold main. rewrite Hp. reflexivity.
Qed.

Lemma script_usage_exit (argv : list string) (s0 s : state W)
      (t0 : list (entry W)) :
  imports W s0 = (Ok tt, s, t0) ->
  parse_args argv = Argparse.UsageError ->
  usage_exit t0 (script W argv s0).
Proof.
  intros Hi Hp. rewrite (script_usage argv s0 s t0 Hi Hp).
  destruct (imports_ok _ _ _ Hi) as (_ & Ic & Is & _).
  unfold usage_exit, outcome, trace, checked_paths, steps, calls in *.
  cbn [fst snd]. rewrite !flat_map_app. cbn. rewrite !app_nil_r.
  repeat split; assumption.
Qed.

Lemma script_help_exit (argv : list string) (s0 s : state W)
      (t0 : list (entry W)) :
  imports W s0 = (Ok tt, s, t0) ->
  parse_args argv = Argparse.HelpExit ->
  help_exit t0 (script W argv s0).
Proof.
  intros Hi Hp. rewrite (script_help argv s0 s t0 Hi Hp).
  destruct (imports_ok _ _ _ Hi) as (_ & Ic & Is & _).
  unfold help_exit, outcome, trace, checked_paths, steps, calls in *.
  cbn [fst snd]. rewrite !flat_map_app. cbn. rewrite !app_nil_r.
  repeat split; assumption.
Qed.

Ltac flows :=
  cbn [all_before load_fed_by app];
  repeat match goal with
         | |- True => exact I
         | |- _ /\ _ => split
         | |- @eq string _ _ => reflexivity
         | |- @eq (attribute _) _ _ => reflexivity
         | |- @eq bool _ _ => reflexivity
         | |- exists _, _ => eexists
         | |- returned _ _ _ => in_trace
         end.

(** Whether the message [line] is among the lines of a run, when the
    lines are known up to the strings the script puts into them. *)
Ltac among line :=
  split;
  [ intros ?H;
    first [ discriminate H
          | match type of H with
            | ex _ => destruct H as [? H]; discriminate H
            end
          | cbn; unfold line; cbn; auto 10 ]
  | cbn; unfold line; cbn; intros ?H;
    repeat match goal with
           | H : _ \/ _ |- _ => destruct H as [H|H]
           | H : False |- _ => contradiction
           | H : @eq string _ _ |- _ => discriminate H
           end;
    first [ reflexivity | eexists; reflexivity ] ].

(** *** More of what the script does *)

(** X1.  [load_model] makes each of its third-party calls on what the
    calls before it returned: the configuration is read from
    [config.json] under the base model directory, the model is made from
    that configuration and given the base checkpoint, then the weights
    read from the finetuned checkpoint, mapped to the device asked for;
    the model is moved to that device and put in evaluation mode.  What
    it returns is the model [init_from_config] made, and it prints
    [Model loaded on device] exactly when it returns. *)
Theorem load_model_flow
        (base_model_path finetuned_checkpoint device : string) (s : state W) :
  let r := load_model W base_model_path finetuned_checkpoint device s in
  all_before (load_fed_by base_model_path finetuned_checkpoint device) []
             (trace r) /\
  (forall model,
      outcome r = Ok model ->
      (exists config, returned (trace r) (init_from_config config) model) /\
      completed LoadModel (trace r) = true) /\
  ((exists model, outcome r = Ok model) <->
   In (model_loaded device) (stderr (trace r))).
Proof.
  cbn zeta. unfold_script. unfold outcome, trace. repeat answer.
  all: split; [flows|split].
  all: try (intros model Hm; first [discriminate Hm | inversion Hm; subst]).
  all: try (split; [eexists; in_trace|reflexivity]).
  all: among model_loaded.
Qed.

(** X2.  When a required option ([--base-model], [--finetuned],
    [--reference-audio], [--text], [--output]) is omitted, the command
    line does not parse: the run ends in argparse, with the usage
    message and status 2, or with the help and status 0 when help was
    asked for; with no help option on the command line it is status 2.
    No path was looked at and no step was started. *)
Theorem required_option_omitted
        (a : Argparse.action) (argv : list string) (s0 s : state W)
        (t0 : list (entry W)) :
  imports W s0 = (Ok tt, s, t0) ->
  Argparse.required a = true ->
  Cmdline.omitted a argv = true ->
  let r := script W argv s0 in
  (forall args, parse_args argv <> Argparse.Parsed args) /\
  (usage_exit t0 r \/ help_exit t0 r) /\
  (Cmdline.omitted Argparse.Help argv = true -> usage_exit t0 r).
Proof.
  intros Hi Hr Ho. cbn zeta.
  destruct (ArgparseFacts.parse_args_required
              (float_of_str W) (int_of_str W) a argv Hr Ho) as [Hn Hu].
  split; [exact Hn|]. split.
  - destruct (parse_args argv) as [args| |] eqn:Hp.
    + exfalso. exact (Hn args eq_refl).
    + left. exact (script_usage_exit argv s0 s t0 Hi Hp).
    + right. exact (script_help_exit argv s0 s t0 Hi Hp).
  - intros Hh. exact (script_usage_exit argv s0 s t0 Hi (Hu Hh)).
Qed.

(** X3.  The eleven options written [--flag=value] parse, whatever the
    strings after [=] are, as long as [float] and [int] convert the
    numbers and the device is [cpu] or [cuda]; a value that is [--]
    needs no conversion and is no device to refuse.  [main] goes on
    with the namespace that holds those strings and numbers, and the
    empty list wherever the value was [--]. *)
Theorem equals_form_stores_values
        (b f r t o l tmp rp k p d : string) (x y z : attribute float)
        (n : attribute Z) :
  Given.converted (float_of_str W) tmp x ->
  Given.converted (float_of_str W) rp y ->
  Given.converted (int_of_str W) k n ->
  Given.converted (float_of_str W) p z ->
  d = "--" \/ device_ok d ->
  let argv := Given.equals_form b f r t o l tmp rp k p d in
  let args := mkAttributes (Given.stored b) (Given.stored f) (Given.stored r)
                           (Given.stored t) (Given.stored o) (Given.stored l)
                           x y n z (Given.stored d) in
  parse_args argv = Argparse.Parsed args /\
  main W argv = main_body W args.
Proof.
  intros Ht Hr Hk Hp Hd. cbn zeta.
  pose proof (ArgparseFacts.parse_args_equals_form
                (float_of_str W) (int_of_str W) b f r t o l tmp rp k p d
                x y z n Ht Hr Hk Hp Hd) as H.
  split; [exact H|]. exact (main_parsed _ _ H).
Qed.

(** X4.  The five required options written [--flag value], with values
    that do not begin with a dash, parse: [main] goes on with those
    values and the defaults of the six other options. *)
Theorem spaced_form_stores_values (b f r t o : string) :
  Given.plain b = true -> Given.plain f = true -> Given.plain r = true ->
  Given.plain t = true -> Given.plain o = true ->
  let argv := Given.spaced_form b f r t o in
  let args := mkNamespace b f r t o "cs" 0.75%float 3.0%float 50
                          0.85%float "cpu" in
  parse_args argv = Argparse.Parsed args /\
  main W argv = main_body W args.
Proof.
  intros Hb Hf Hr Ht Ho. cbn zeta.
  pose proof (ArgparseFacts.parse_args_spaced_form
                (float_of_str W) (int_of_str W) b f r t o Hb Hf Hr Ht Ho) as H.
  split; [exact H|]. exact (main_parsed _ _ H).
Qed.


(** X6.  When, with no help option before it, [--temperature],
    [--repetition-penalty] or [--top-p] is given a value [float] does
    not convert, or [--top-k] one [int] does not convert, and the option
    is not written [--flag=--], the run ends with the usage message and
    status 2; no path was looked at and no step was started. *)
Theorem unconvertible_value_rejected
        (a : Argparse.action) (pre : list string) (arg : string)
        (post : list string) (v : string) (s0 s : state W)
        (t0 : list (entry W)) :
  imports W s0 = (Ok tt, s, t0) ->
  Cmdline.omitted Argparse.Help pre = true ->
  Given.gives a arg post v ->
  Given.unconvertible (float_of_str W) (int_of_str W) a v ->
  Cmdline.writes_empty_list a arg = false ->
  usage_exit t0 (script W (pre ++ arg :: post) s0).
Proof.
  intros Hi Hh (o & e & Harg & Hv) Hu He.
  apply (script_usage_exit _ s0 s t0 Hi).
  apply (ArgparseFacts.parse_args_refused_value
           (float_of_str W) (int_of_str W) a pre arg o e post Hh Harg).
  - intros ->. exact Hu.
  - exact (ArgparseFacts.writes_empty_list_false a arg o e Harg He).
  - intros v' Hv' p. rewrite Hv in Hv'. inversion Hv'; subst v'.
    exact (ArgparseFacts.take_action_unconvertible
             (float_of_str W) (int_of_str W) a v p Hu).
Qed.

(** X7.  When the help option comes first on a command line that holds
    no ambiguous abbreviation, the run prints the help and ends with
    status 0, whatever else the command line holds or lacks; no path was
    looked at and no step was started. *)
Theorem help_first
        (arg o : string) (rest : list string) (s0 s : state W)
        (t0 : list (entry W)) :
  imports W s0 = (Ok tt, s, t0) ->
  Argparse.parse_optional arg = Argparse.Optional (Some Argparse.Help) o None ->
  Forall (fun x => Argparse.parse_optional x <> Argparse.Ambiguous) rest ->
  help_exit t0 (script W (arg :: rest) s0).
Proof.
  intros Hi Harg Hrest.
  apply (script_help_exit _ s0 s t0 Hi).
  exact (ArgparseFacts.parse_args_help_first
           (float_of_str W) (int_of_str W) arg o rest Harg Hrest).
Qed.

(** A whole run step by step: the imports, the command line, the three
    inputs, then the third-party code. *)
Ltac run_script argv s0 :=
  let Q := fresh "Q" in
  let HQ := fresh "HQ" in
  pattern (script W argv s0);
  match goal with
  | |- ?P _ => remember P as Q eqn:HQ
  end;
  unfold script, main;
  destruct (parse_args argv) as [?args| |] eqn:?Hp;
  open_namespace;
  unfold_script;
  repeat first
         [ answer
         | match goal with
           | |- context [match ?e with ImportError _ => _ | Exception _ _ => _ end] =>
               is_var e; destruct e; cbn
           | |- context [path_exists W ?s ?p] =>
               let E := fresh "E" in
               destruct (path_exists W s p) eqn:E; cbn
           end ];
  subst Q; cbv beta; unfold outcome, final_state, trace; cbn [fst snd].

Ltac one_of :=
  cbn; solve [repeat first [left; reflexivity | right]].

(** What holds of a run that is known entry by entry. *)
Ltac holds :=
  cbn;
  first [ reflexivity
        | solve [repeat first [left; reflexivity | right; reflexivity | right]]
        | left; solve [repeat first [left; reflexivity | right]] ].

(** What does not. *)
Ltac none_of H :=
  cbn in H;
  repeat match type of H with
         | _ \/ _ => destruct H as [H|H]
         end;
  first [contradiction | discriminate H].

Ltac iff_known :=
  split; (let H := fresh "H" in intros H; first [holds | none_of H]).

(** X8.  The exit status of a run is 0, 1 or 2.  It is 2 exactly when
    argparse printed its usage message; it is 0 exactly when the help
    was printed or the script ran to its end, which is exactly when it
    printed [SUCCESS]; and a [sys.exit(1)] comes after a line on stderr
    that begins with [ERROR: ]. *)
Theorem exit_status_cases (argv : list string) (s0 : state W) :
  let r := script W argv s0 in
  In (exit_status (outcome r)) [0; 1; 2] /\
  (exit_status (outcome r) = 2 <-> In Usage (trace r)) /\
  (exit_status (outcome r) = 0 <-> In HelpText (trace r) \/ outcome r = Ok tt) /\
  (outcome r = Ok tt <-> In (Stderr "SUCCESS") (trace r)) /\
  (outcome r = Abort (SysExit 1) ->
   exists line, In line (stderr (trace r)) /\
                Str.startswith line "ERROR: " = true).
Proof.
  cbn zeta. run_script argv s0.
  all: split; [one_of|].
  all: split; [iff_known|].
  all: split; [iff_known|].
  all: split; [iff_known|].
  all: intros H; try discriminate H.
  all: eexists; split; [cbn; left; reflexivity|reflexivity].
Qed.

(** X9.  A run that ends without an exception or [sys.exit] went
    through the whole script: the command line parsed, the three inputs
    were looked for, in the order base model, checkpoint, reference
    audio, and found, the four steps ran in order and each completed,
    and no third-party code raised. *)
Theorem success_means_all_steps (argv : list string) (s0 : state W) :
  let r := script W argv s0 in
  outcome r = Ok tt ->
  (forall st, In st pipeline -> completed st (trace r) = true) /\
  steps (trace r) = pipeline /\
  Forall (@found W) (trace r) /\
  filter (@failed W) (trace r) = [] /\
  exists args,
    parse_args argv = Argparse.Parsed args /\
    map (@Value string) (checked_paths (trace r)) =
      [ns_base_model args; ns_finetuned args; ns_reference_audio args].
Proof.
  cbn zeta. run_script argv s0.
  all: intros H; try discriminate H.
  all: split;
    [intros st Hin; cbn in Hin;
     repeat (destruct Hin as [<-|Hin]; [cbn; repeat answer; reflexivity|]);
     contradiction|].
  all: split; [reflexivity|].
  all: split; [forall_trace|].
  all: split; [reflexivity|].
  all: eexists; split; [first [eassumption | reflexivity]|reflexivity].
Qed.

(** X10.  When one of the guarded imports raises an exception that is
    not an [ImportError], the [except] clause does not apply: the run is
    the imports up to that one and ends with the exception, so with
    status 1; the installation hint is not printed, the command line is
    not parsed, no path is looked at and no step is started. *)
Theorem import_exception_not_caught
        (argv : list string) (s0 : state W) (cls msg : string) :
  outcome (guarded_imports W s0) = Abort (Raise (Exception cls msg)) ->
  let r := script W argv s0 in
  r = guarded_imports W s0 /\
  outcome r = Abort (Raise (Exception cls msg)) /\
  exit_status (outcome r) = 1 /\
  stderr (trace r) = [] /\
  checked_paths (trace r) = [] /\
  steps (trace r) = [] /\
  (exists m, last (trace r) Usage =
             Call (Import m) (inl (Exception cls msg))) /\
  forall argv', script W argv' s0 = r.
Proof.
  unfold_script. unfold outcome, trace.
  repeat answer; intros H; inversion H; subst; cbn;
    repeat split; eexists; reflexivity.
Qed.

(** X11.  Whatever the command line, the devices a run names to torch,
    in [torch.device] and in [model.to], are [cpu], [cuda] or the empty
    list that [--device=--] leaves in the namespace; on a command line
    where no string is [--device=--] they are [cpu] or [cuda]. *)
Theorem devices_named_to_torch (argv : list string) (s0 : state W) :
  let t := trace (script W argv s0) in
  Forall (device_entry device_stored) t /\
  (no_empty_device argv -> Forall (device_entry device_named) t).
Proof.
  cbn zeta. run_script argv s0.
  all: try (assert (Hd := ArgparseFacts.parse_args_device
                            (float_of_str W) (int_of_str W) argv _ Hp);
            assert (Hn := fun H => ArgparseFacts.parse_args_device_named
                                     (float_of_str W) (int_of_str W) argv _
                                     H Hp);
            cbn [ns_device] in Hd, Hn).
  all: split; [forall_trace|intros Hne; forall_trace].
Qed.

(** X12.  The paths of the command line go to the code that uses them
    as they are: the existence checks are on the base model, the
    checkpoint and the reference audio; the configuration is read from
    [config.json] joined to the base model directory, which is also the
    checkpoint directory; [torch.load] reads the finetuned checkpoint;
    the latents are computed from the one reference audio; and
    [torchaudio.save] writes to the output path. *)
Theorem paths_pass_through
        (argv : list string) (args : Namespace) (s0 : state W) :
  parse_args argv = Argparse.Parsed args ->
  Forall (path_entry args) (trace (script W argv s0)).
Proof.
  intros H. run_script argv s0.
  all: try congruence.
  all: unfold attributes_of, of_str, of_float, of_int in *.
  all: try (first [discriminate H | inversion H; subst]).
  all: forall_trace.
Qed.

(** X13.  No run repeats a step: the model is made, the finetuned
    checkpoint read, the latents computed, the speech synthesized and
    the audio written at most once each, and once each when the run ends
    well. *)
Theorem each_step_at_most_once (argv : list string) (s0 : state W) :
  let r := script W argv s0 in
  Forall (fun kind => (count kind (trace r) <= 1)%nat /\
                      (outcome r = Ok tt -> count kind (trace r) = 1%nat))
         [@is_init W; @is_torch_load W; @is_latents W; @is_inference W;
          @is_save W].
Proof.
  cbn zeta. run_script argv s0.
  all: repeat (apply Forall_cons;
               [split; [cbn; lia|intros H; first [discriminate H|reflexivity]]|]).
  all: apply Forall_nil.
Qed.

Lemma take_prefix (n : nat) (s : string) :
  String.prefix (Str.take n s) s = true.
Proof.
  unfold Str.take. revert s. induction n as [|n IH]; intros [|c s]; cbn;
    try reflexivity.
  destruct (ascii_dec c c) as [_|Hc]; [apply IH|congruence].
Qed.

Lemma take_length (n : nat) (s : string) :
  String.length (Str.take n s) = Nat.min n (String.length s).
Proof.
  unfold Str.take. revert s. induction n as [|n IH]; intros [|c s]; cbn;
    try reflexivity.
  f_equal. apply IH.
Qed.

Lemma take_all (n : nat) (s : string) :
  (String.length s <= n)%nat -> Str.take n s = s.
Proof.
  unfold Str.take. revert s. induction n as [|n IH]; intros [|c s] H; cbn in *;
    try reflexivity; try lia.
  f_equal. apply IH. lia.
Qed.

(** X14.  [generate_speech] shows at most the first 50 characters of the
    text in its progress line and hands the whole text to the model:
    its one third-party call is [model.inference] on the text and the
    parameters it was given, and what it returns is what that call
    returned. *)
Theorem generate_speech_shows_prefix
        (model : obj W) (text : string) (gpt_cond_latent speaker_embedding : obj W)
        (language : string) (temperature repetition_penalty : float)
        (top_k : Z) (top_p : float) (s : state W) :
  let r := generate_speech W model text gpt_cond_latent speaker_embedding
                           language temperature repetition_penalty top_k
                           top_p s in
  let c := inference model text language gpt_cond_latent speaker_embedding
                     temperature repetition_penalty top_k top_p in
  (exists shown,
      stderr (trace r) = ["Generating speech for text: " ++ shown ++ "..."]%string /\
      String.prefix shown text = true /\
      String.length shown = Nat.min 50 (String.length text) /\
      ((String.length text <= 50)%nat -> shown = text)) /\
  calls (trace r) = [c] /\
  (forall out, outcome r = Ok out <-> returned (trace r) c out).
Proof.
  cbn zeta. split.
  - exists (Str.take 50 text).
    split; [|split; [apply take_prefix|split; [apply take_length|apply take_all]]].
    unfold_script. unfold trace. repeat answer; reflexivity.
  - unfold_script. unfold outcome, trace. repeat answer.
    all: split; [reflexivity|].
    all: intros out; unfold returned; cbn; split; intros H.
    all: repeat match goal with
                | H : _ \/ _ |- _ => destruct H as [H|H]
                | H : False |- _ => contradiction
                end.
    all: try discriminate H.
    all: try (inversion H; subst; auto).
Qed.

(** X15.  [save_audio] begins by importing torchaudio, never asks
    whether the output path exists, and calls [torchaudio.save] at most
    once, as the last third-party code it runs; it prints
    [Audio saved to] exactly when it returns, which is exactly when
    [torchaudio.save] returned. *)
Theorem save_audio_reports
        (audio_tensor : obj W) (output_path : string) (sample_rate : Z)
        (s : state W) :
  let r := save_audio W audio_tensor output_path sample_rate s in
  (exists x t, trace r = Call (Import "torchaudio") x :: t) /\
  checked_paths (trace r) = [] /\
  (count (@is_save W) (trace r) <= 1)%nat /\
  (outcome r = Ok tt <-> In (audio_saved output_path) (stderr (trace r))) /\
  (outcome r = Ok tt <-> completed WriteAudio (trace r) = true) /\
  (outcome r = Ok tt ->
   exists t src o,
     trace r =
       t ++ [Call (torchaudio_save output_path src sample_rate) (inr o);
             Stderr (audio_saved output_path)]).
Proof.
  cbn zeta. unfold_script. unfold outcome, trace. repeat answer.
  all: split; [eexists; eexists; reflexivity|].
  all: split; [reflexivity|].
  all: split; [cbn; lia|].
  all: split; [among audio_saved|].
  all: split; [split; intros H; first [discriminate H | reflexivity]|].
  all: intros H; try discriminate H.
  all: match goal with
       | |- exists t src o, ?l = _ =>
           exists (removelast (removelast l)); eexists; eexists; reflexivity
       end.
Qed.

(** X17.  As long as [torch.tensor] returns a tensor, the conversion in
    [save_audio] is never run by [main]: a run of [main] converts at
    most once, and what it converts is the samples of what inference
    returned. *)
Theorem main_converts_once (args : Namespace) (s : state W) :
  tensor_is_tensor W ->
  let t := trace (main_body W args s) in
  (count (@is_conversion W) t <= 1)%nat /\
  Forall (converts_wav t) t.
Proof.
  intros Ht. cbn zeta. run_main_body args s.
  all: try match goal with
           | R : respond W (torch_tensor _) _ = (inr ?o, _),
             T : is_tensor W ?o = false |- _ =>
               rewrite (Ht _ _ _ _ R) in T; discriminate T
           end.
  all: split; [cbn; lia|forall_trace].
  all: eexists; in_trace.
Qed.

(** X16.  The script catches nothing but an [ImportError] of its guarded
    imports.  When third-party code raises, it is the only code that
    raised in the run and the exit status is 1: either the run ends
    there with that exception, or the exception is an [ImportError] of a
    guarded import and the run ends with [sys.exit(1)] after the
    installation hint. *)
Theorem exceptions_propagate (argv : list string) (s0 : state W) :
  let r := script W argv s0 in
  existsb (@failed W) (trace r) = true ->
  exists c e,
    filter (@failed W) (trace r) = [Call c (inl e)] /\
    exit_status (outcome r) = 1 /\
    (outcome r = Abort (Raise e) /\ last (trace r) Usage = Call c (inl e) \/
     outcome r = Abort (SysExit 1) /\ stderr (trace r) = install_hint /\
     exists msg m, e = ImportError msg /\ c = Import m).
Proof.
  cbn zeta. run_script argv s0.
  all: intros H; try discriminate H.
  all: eexists; eexists.
  all: split; [reflexivity|split; [reflexivity|]].
  all: first
         [ left; split; reflexivity
         | right; split; [reflexivity|split; [reflexivity|]];
           eexists; eexists; split; reflexivity ].
Qed.

(** X18.  torchaudio is imported by [save_audio], outside the guard:
    when that import fails the run ends there with the exception and
    status 1, without the installation hint, after the model was loaded,
    the latents computed and the speech synthesized, and nothing is
    written. *)
Theorem torchaudio_missing_found_late (argv : list string) (s0 : state W) :
  let r := script W argv s0 in
  existsb (import_failed "torchaudio") (trace r) = true ->
  (exists e,
      outcome r = Abort (Raise e) /\
      last (trace r) Usage = Call (Import "torchaudio") (inl e)) /\
  exit_status (outcome r) = 1 /\
  Forall (fun line => ~ In line (stderr (trace r))) install_hint /\
  completed LoadModel (trace r) = true /\
  completed ComputeLatents (trace r) = true /\
  completed Synthesize (trace r) = true /\
  completed WriteAudio (trace r) = false.
Proof.
  cbn zeta. run_script argv s0.
  all: intros H; try discriminate H.
  all: split; [eexists; split; reflexivity|split; [reflexivity|]].
  all: split;
    [repeat (apply Forall_cons;
             [let Hin := fresh "Hin" in intros Hin; none_of Hin|]);
     apply Forall_nil|].
  all: cbn; repeat answer; repeat split.
Qed.


(** X19.  What [save_audio] hands to [torchaudio.save] is the buffer,
    converted to a tensor when it is not one, with as many dimensions
    as it has, or with two when it has one; it goes to the path and at
    the sample rate [save_audio] was given, and when [save_audio]
    returns that call was made.  Every run of the script writes at
    24000 Hz, the default, whatever the command line, and a run that
    ends well has written. *)
Theorem save_audio_layout_and_rate :
  torch_shapes W ->
  (forall buffer (output_path : string) sample_rate s,
      let r := save_audio W buffer output_path sample_rate s in
      Forall (written_layout (trace r) buffer output_path sample_rate)
             (trace r) /\
      (outcome r = Ok tt ->
       exists src o,
         returned (trace r) (torchaudio_save output_path src sample_rate) o)) /\
  (forall argv s0,
      let r := script W argv s0 in
      Forall (written_rate 24000) (trace r) /\
      (outcome r = Ok tt ->
       exists uri src o,
         returned (trace r) (torchaudio_save uri src 24000) o)).
Proof.
  intros [Hu Hc]. split.
  - intros buffer output_path sample_rate s. cbn zeta.
    unfold_script. unfold outcome, trace. repeat answer.
    all: split; [|intros H; first [discriminate H|do 2 eexists; in_trace]].
    all: forall_trace.
    all: split; [reflexivity|split; [reflexivity|]].
    all: match goal with
         | N : ndim W ?t = inr ?n |- _ => exists t, n
         end.
    all: split;
      [ first [ left; split; [assumption|reflexivity]
              | right; split; [assumption|in_trace] ] | ].
    all: split; [assumption|].
    all: match goal with
         | Rc : respond W (cpu _) _ = (inr ?src, _) |- ndim W ?src = _ =>
             rewrite (Hc _ _ _ _ Rc)
         end.
    all: match goal with
         | Q : (_ =? 1) = _ |- _ => rewrite Q
         end.
    all: first
           [ assumption
           | match goal with
             | Q : (?n =? 1) = true,
               Ru : respond W (unsqueeze _ 0) _ = (inr ?u, _)
               |- ndim W ?u = _ =>
                 apply Z.eqb_eq in Q; subst n;
                 exact (Hu _ _ _ _ 1 Ru ltac:(assumption))
             end ].
  - intros argv s0. cbn zeta. unfold script, bind.
    pose proof (imports_rate 24000 s0) as Hi.
    destruct (imports W s0) as [[[[]|x] s] t0]; unfold outcome, trace in *;
      cbn [fst snd] in *; [|split; [exact Hi|intros H; discriminate H]].
    unfold main.
    destruct (parse_args argv) as [args| |].
    + pose proof (main_body_rate args s) as Hm.
      pose proof (main_body_writes args s) as Hw. cbn zeta in Hw.
      destruct (main_body W args s) as [[r1 s1] t1].
      unfold outcome, trace in Hm, Hw. cbn [fst snd] in *. split.
      * apply Forall_app. split; assumption.
      * intros H. destruct (Hw H) as (src & o & Hin).
        exists (ns_output args), src, o. unfold returned in *.
        apply in_or_app. right. exact Hin.
    + cbn. split; [|intros H; discriminate H].
      apply Forall_app. split; [exact Hi|forall_trace].
    + cbn. split; [|intros H; discriminate H].
      apply Forall_app. split; [exact Hi|forall_trace].
Qed.

(** [main] when one of the three inputs is the empty list. *)
Lemma main_body_empty_list_path (args : Attributes) (s : state W) :
  In EmptyList
     [ns_base_model args; ns_finetuned args; ns_reference_audio args] ->
  let r := main_body W args s in
  exit_status (outcome r) = 1 /\
  calls (trace r) = [] /\
  ((exists msg,
       outcome r = Abort (Raise (Exception "TypeError" msg)) /\
       stderr (trace r) = []) \/
   (outcome r = Abort (SysExit 1) /\
    exists label path,
      stderr (trace r) = [not_found label path] /\
      path_exists W s path = false)) /\
  (ns_base_model args = EmptyList ->
   exists msg,
     outcome r = Abort (Raise (Exception "TypeError" msg)) /\ trace r = []).
Proof.
  intros Hin. cbn zeta.
  destruct args as [bm ft ra tx out lg tmp rp k p d]. cbn in Hin.
  destruct bm as [bm|], ft as [ft|], ra as [ra|];
    try (exfalso; intuition discriminate); clear Hin.
  all: unfold_script; unfold outcome, trace; answer_paths.
  all: split; [reflexivity|split; [reflexivity|split]].
  all: try (intros H; first [discriminate H | eexists; split; reflexivity]).
  all: try (left; eexists; split; reflexivity).
  all: right; split; [reflexivity|].
  all: match goal with
       | E : path_exists W _ ?p = false |- _ =>
           first [ exists "Base model", p; split; [reflexivity|exact E]
                 | exists "Finetuned checkpoint", p;
                   split; [reflexivity|exact E]
                 | exists "Reference audio", p; split; [reflexivity|exact E] ]
       end.
Qed.

(** X20.  A required path written [--flag=--] is the empty list in the
    namespace, which [os.path.exists] refuses.  When the imports
    succeeded and the command line parsed with the empty list as the
    base model, the checkpoint or the reference audio, the run ends
    with status 1 before any step and without third-party code after
    the imports: with the [TypeError] of [os.path.exists] and nothing
    printed, or with [sys.exit(1)] and the message of a missing path
    that was checked before; when it is the base model, it is the
    [TypeError], before any path was looked at. *)
Theorem empty_list_path_raises
        (argv : list string) (args : Attributes) (s0 s : state W)
        (t0 : list (entry W)) :
  imports W s0 = (Ok tt, s, t0) ->
  parse_args argv = Argparse.Parsed args ->
  In EmptyList
     [ns_base_model args; ns_finetuned args; ns_reference_audio args] ->
  let r := script W argv s0 in
  exit_status (outcome r) = 1 /\
  calls (trace r) = calls t0 /\
  steps (trace r) = [] /\
  ((exists msg,
       outcome r = Abort (Raise (Exception "TypeError" msg)) /\
       stderr (trace r) = []) \/
   (outcome r = Abort (SysExit 1) /\
    exists label path,
      stderr (trace r) = [not_found label path] /\
      path_exists W s path = false)) /\
  (ns_base_model args = EmptyList ->
   exists msg,
     outcome r = Abort (Raise (Exception "TypeError" msg)) /\ trace r = t0).
Proof.
  intros Hi Hp Hin. cbn zeta.
  destruct (script_parsed argv args s0 s t0 Hi Hp) as [Ho Ht].
  destruct (imports_ok _ _ _ Hi) as (Ie & _ & Is & _).
  destruct (main_body_empty_list_path args s Hin) as (Hx & Hc & Hd & Hb).
  rewrite Ho, Ht.
  assert (Hcalls : calls (t0 ++ trace (main_body W args s)) = calls t0).
  { unfold calls in *. rewrite flat_map_app, Hc. apply app_nil_r. }
  assert (Herr : stderr (t0 ++ trace (main_body W args s)) =
                 stderr (trace (main_body W args s))).
  { unfold stderr in *. rewrite flat_map_app, Ie. reflexivity. }
  split; [exact Hx|]. split; [exact Hcalls|]. split.
  { unfold steps in *. rewrite Hcalls. exact Is. }
  split.
  - rewrite Herr. exact Hd.
  - intros Hbm. destruct (Hb Hbm) as (msg & Hm & Hnil).
    exists msg. split; [exact Hm|]. rewrite Hnil. apply app_nil_r.
Qed.

End Runs.

(** ** The properties on concrete runs *)

Section Concrete.

Local Open Scope list_scope.

Lemma sim_parse_args :
  Argparse.parse_args Sim.float_of_str Sim.int_of_str Sim.argv =
  Argparse.Parsed Sim.args.
Proof. reflexivity. Qed.

(** The parser on some command lines: an abbreviated option and a
    negative number; an ambiguous abbreviation; a missing required
    option; a stray argument; the help. *)
Example parse_abbreviated :
  Argparse.parse_args Sim.float_of_str Sim.int_of_str
    (Sim.argv ++ ["--lang=en"; "--temp"; "-2"; "--device"; "cuda"]) =
  Argparse.Parsed
    (mkNamespace "models/xtts" "ft/best.pth" "ref.wav" "Ahoj" "out.wav"
                 "en" (-2)%float 3.0%float 50 0.85%float "cuda").
Proof. reflexivity. Qed.

Example parse_ambiguous :
  Argparse.parse_args Sim.float_of_str Sim.int_of_str
    (Sim.argv ++ ["--te"; "0.5"]) = Argparse.UsageError.
Proof. reflexivity. Qed.

Example parse_required_missing :
  Argparse.parse_args Sim.float_of_str Sim.int_of_str
    ["--base-model"; "models/xtts"; "--text"; "Ahoj"] = Argparse.UsageError.
Proof. reflexivity. Qed.

Example parse_unrecognized :
  Argparse.parse_args Sim.float_of_str Sim.int_of_str
    (Sim.argv ++ ["extra"]) = Argparse.UsageError.
Proof. reflexivity. Qed.

Example parse_help :
  Argparse.parse_args Sim.float_of_str Sim.int_of_str
    ["--base-model"; "models/xtts"; "-h"] = Argparse.HelpExit.
Proof. reflexivity. Qed.

(** [--flag=--]: the empty list is stored, without conversion and
    without the [choices] check, and it counts as the required option
    given; [--flag --] is refused. *)
Example parse_empty_list :
  Argparse.parse_args Sim.float_of_str Sim.int_of_str
    ["--base-model"; "models/xtts"; "--finetuned"; "ft/best.pth";
     "--reference-audio"; "ref.wav"; "--text=--"; "--output"; "out.wav";
     "--top-k=--"; "--device=--"] =
  Argparse.Parsed
    (mkAttributes "models/xtts" "ft/best.pth" "ref.wav" EmptyList "out.wav"
                  "cs" 0.75%float 3.0%float EmptyList 0.85%float EmptyList).
Proof. reflexivity. Qed.

Example parse_dashdash_after_option :
  Argparse.parse_args Sim.float_of_str Sim.int_of_str
    (Sim.argv ++ ["--device"; "--"]) = Argparse.UsageError.
Proof. reflexivity. Qed.

(** A run that goes through: what the process prints and how it ends. *)
Example run_success :
  outcome (script Sim.installed Sim.argv Sim.files) = Ok tt /\
  stderr (trace (script Sim.installed Sim.argv Sim.files)) =
    ["Loading base model from: models/xtts";
     "Loading finetuned weights from: ft/best.pth";
     "Model loaded on device: cpu";
     "Computing speaker latents from: ref.wav";
     "Generating speech for text: Ahoj...";
     "Audio saved to: out.wav";
     "SUCCESS"] /\
  steps (trace (script Sim.installed Sim.argv Sim.files)) = pipeline /\
  final_state (script Sim.installed Sim.argv Sim.files) = "out.wav" :: Sim.files.
Proof. repeat split. Qed.

Lemma sim_imports (files : list string) :
  imports Sim.installed files = (Ok tt, files, Sim.imported).
Proof. reflexivity. Qed.

Lemma sim_torch_shapes : torch_shapes Sim.installed.
Proof.
  split.
  - intros t s u s' n H N. destruct t; try discriminate H.
    cbn in H, N. inversion H; inversion N; subst. cbn.
    f_equal. lia.
  - intros t s u s' H. destruct t; try discriminate H.
    cbn in H. inversion H; subst. reflexivity.
Qed.

(** C1 with the checkpoint missing. *)
Lemma missing_input_path_exits_1_witness :
  path_exists Sim.installed ["models/xtts"] (finetuned Sim.args) = false /\
  exists label path before after,
    required_inputs Sim.args = before ++ (label, path) :: after /\
    Forall (fun i => path_exists Sim.installed ["models/xtts"] (snd i) = true)
           before /\
    path_exists Sim.installed ["models/xtts"] path = false /\
    let r := script Sim.installed Sim.argv ["models/xtts"] in
    outcome r = Abort (SysExit 1) /\
    exit_status (outcome r) = 1 /\
    stderr (trace r) = [not_found label path] /\
    checked_paths (trace r) = map snd before ++ [path] /\
    calls (trace r) = calls Sim.imported /\
    steps (trace r) = [].
Proof.
  split; [reflexivity|].
  apply (missing_input_path_exits_1 Sim.installed Sim.argv Sim.args
           ["models/xtts"] ["models/xtts"] Sim.imported);
    [reflexivity | reflexivity | right; left; reflexivity].
Defined.

(** The message of that run. *)
Example missing_checkpoint_message :
  stderr (trace (script Sim.installed Sim.argv ["models/xtts"])) =
    ["ERROR: Finetuned checkpoint not found: ft/best.pth"].
Proof. reflexivity. Qed.

(** C2.  The comment of line 99 says [Ensure 2D tensor [channels,
    samples]]; the guard of line 100 adds the channel axis to a buffer
    of one dimension only.  On a tensor of shape (2, 3, 5) the audio
    writer's third-party code is the import, [cpu] and
    [torchaudio.save], which is handed the tensor with its three
    dimensions: what is written is not in two dimensions.  A run of the
    script in which inference returns such samples ends there, with the
    exception of [torchaudio.save] and status 1. *)
Theorem audio_writer_keeps_three_dimensions :
  let buffer := Sim.Tensor [2; 3; 5]%nat in
  let r := save_audio Sim.installed buffer "out.wav" 24000 [] in
  let run := script Faulty.three_dimensions Sim.argv Sim.files in
  ndim Sim.installed buffer = inr 3 /\
  calls (trace r) =
    [Import "torchaudio"; cpu buffer; torchaudio_save "out.wav" buffer 24000] /\
  ~ writes_2d_at_24000 (trace r) /\
  outcome run = Abort (Raise (Exception "ValueError" "Expected 2D Tensor")) /\
  exit_status (outcome run) = 1.
Proof.
  cbn zeta. split; [reflexivity|]. split; [reflexivity|].
  split; [|split; reflexivity].
  intros H.
  destruct (H "out.wav" (Sim.Tensor [2; 3; 5]%nat) 24000
              (inl (Exception "ValueError" "Expected 2D Tensor")))
    as [Hn _].
  - cbn. auto.
  - discriminate Hn.
Qed.

(** C3 with no package installed. *)
Lemma missing_packages_exit_before_arguments_witness :
  outcome (guarded_imports Sim.bare []) =
    Abort (Raise (ImportError "No module named torch")) /\
  let r := script Sim.bare Sim.argv [] in
  outcome r = Abort (SysExit 1) /\
  exit_status (outcome r) = 1 /\
  stderr (trace r) =
    ["ERROR: Required packages not installed. Install with:";
     "pip install TTS torch"] /\
  trace r =
    trace (guarded_imports Sim.bare []) ++
    [Stderr "ERROR: Required packages not installed. Install with:";
     Stderr "pip install TTS torch"] /\
  Forall (fun e => exists m x, e = Call (Import m) x)
         (trace (guarded_imports Sim.bare [])) /\
  checked_paths (trace r) = [] /\
  steps (trace r) = [] /\
  forall argv', script Sim.bare argv' [] = r.
Proof.
  split; [reflexivity|].
  apply (missing_packages_exit_before_arguments Sim.bare Sim.argv []
           "No module named torch").
  reflexivity.
Defined.


(** C5 on a run that goes through. *)
Lemma all_steps_complete_success_witness :
  (forall st, In st pipeline ->
              completed st (trace (script Sim.installed Sim.argv Sim.files))
              = true) /\
  let r := script Sim.installed Sim.argv Sim.files in
  outcome r = Ok tt /\
  exit_status (outcome r) = 0 /\
  exists t, trace r = t ++ [Stderr "SUCCESS"] /\
            ~ In (Stderr "SUCCESS") t.
Proof.
  assert (H : forall st, In st pipeline ->
                         completed st (trace (script Sim.installed Sim.argv
                                                     Sim.files)) = true).
  { intros st Hin. cbn in Hin.
    repeat (destruct Hin as [<-|Hin]; [reflexivity|]). contradiction. }
  split; [exact H|].
  exact (all_steps_complete_success Sim.installed Sim.argv Sim.files H).
Defined.



(** C7 on a run that goes through, and on a temperature of -2. *)
Lemma synthesis_parameters_pass_through_witness :
  completed ComputeLatents
            (trace (main_body Sim.installed Sim.args Sim.files)) = true /\
  Sim.float_of_str "-2" = Some (-2)%float /\
  Forall (passes_parameters Sim.args)
         (trace (main_body Sim.installed Sim.args Sim.files)) /\
  In Synthesize (steps (trace (main_body Sim.installed Sim.args Sim.files))) /\
  exists p', Argparse.take_action Sim.float_of_str Sim.int_of_str
               Argparse.Temperature "-2" Argparse.defaults = Some p' /\
             partial_attr Argparse.Temperature p' = VFloat (-2)%float.
Proof.
  split; [reflexivity|]. split; [reflexivity|].
  destruct (synthesis_parameters_pass_through Sim.installed Sim.args Sim.files)
    as (Hf & Hs & Hp).
  split; [exact Hf|]. split; [exact (Hs eq_refl)|].
  destruct (Hp Argparse.defaults "-2") as (_ & _ & Hx & _).
  exact (Hx (-2)%float eq_refl Argparse.Temperature (or_introl eq_refl)).
Defined.





(** *** More of what the script does, on concrete runs *)

(** X2 on a command line without [--finetuned] (nor [--reference-audio]
    and [--output]). *)
Lemma required_option_omitted_witness :
  (Argparse.required Argparse.Finetuned = true /\
   Cmdline.omitted Argparse.Finetuned
                   ["--base-model"; "models/xtts"; "--text"; "Ahoj"] = true /\
   Cmdline.omitted Argparse.Help
                   ["--base-model"; "models/xtts"; "--text"; "Ahoj"] = true) /\
  usage_exit Sim.imported
             (script Sim.installed
                     ["--base-model"; "models/xtts"; "--text"; "Ahoj"]
                     Sim.files).
Proof.
  split; [repeat split|].
  destruct (required_option_omitted Sim.installed Argparse.Finetuned
              ["--base-model"; "models/xtts"; "--text"; "Ahoj"]
              Sim.files Sim.files Sim.imported eq_refl eq_refl eq_refl)
    as (_ & _ & H).
  exact (H eq_refl).
Defined.

(** X3 on a text that begins with a dash and holds [=] and a space, and
    on a language and a repetition penalty written [--]. *)
Lemma equals_form_stores_values_witness :
  (Given.converted Sim.float_of_str "0.5" (Value 0.5%float) /\
   Given.converted Sim.float_of_str "--" EmptyList /\
   Given.converted Sim.int_of_str "40" (Value 40) /\
   ("cuda" = "--" \/ device_ok "cuda")) /\
  Argparse.parse_args Sim.float_of_str Sim.int_of_str
    (Given.equals_form "models/xtts" "ft/best.pth" "ref.wav" "-a=b c"
                       "out.wav" "--" "0.5" "--" "40" "0.5" "cuda") =
  Argparse.Parsed
    (mkAttributes "models/xtts" "ft/best.pth" "ref.wav" "-a=b c" "out.wav"
                  EmptyList 0.5%float EmptyList 40 0.5%float "cuda").
Proof.
  assert (Hx : Given.converted Sim.float_of_str "0.5" (Value 0.5%float))
    by (exists 0.5%float; split; reflexivity).
  assert (Hy : Given.converted Sim.float_of_str "--" EmptyList)
    by reflexivity.
  assert (Hn : Given.converted Sim.int_of_str "40" (Value 40))
    by (exists 40; split; reflexivity).
  assert (Hd : "cuda" = "--" \/ device_ok "cuda")
    by (right; right; reflexivity).
  split; [exact (conj Hx (conj Hy (conj Hn Hd)))|].
  exact (proj1 (equals_form_stores_values Sim.installed
                  "models/xtts" "ft/best.pth" "ref.wav" "-a=b c" "out.wav"
                  "--" "0.5" "--" "40" "0.5" "cuda"
                  (Value 0.5%float) EmptyList (Value 0.5%float) (Value 40)
                  Hx Hy Hn Hx Hd)).
Defined.

(** X4 on the command line of the runs above. *)
Lemma spaced_form_stores_values_witness :
  (Given.plain "models/xtts" = true /\ Given.plain "ft/best.pth" = true /\
   Given.plain "ref.wav" = true /\ Given.plain "Ahoj" = true /\
   Given.plain "out.wav" = true) /\
  Given.spaced_form "models/xtts" "ft/best.pth" "ref.wav" "Ahoj" "out.wav"
  = Sim.argv /\
  main Sim.installed Sim.argv = main_body Sim.installed Sim.args.
Proof.
  split; [repeat split|]. split; [reflexivity|].
  exact (proj2 (spaced_form_stores_values Sim.installed
                  "models/xtts" "ft/best.pth" "ref.wav" "Ahoj" "out.wav"
                  eq_refl eq_refl eq_refl eq_refl eq_refl)).
Defined.


(** X6 on [--top-k 1.5]. *)
Lemma unconvertible_value_rejected_witness :
  (Sim.int_of_str "1.5" = None /\
   Given.gives Argparse.TopK "--top-k" ["1.5"] "1.5" /\
   Cmdline.writes_empty_list Argparse.TopK "--top-k" = false) /\
  usage_exit Sim.imported
             (script Sim.installed (Sim.argv ++ "--top-k" :: ["1.5"])
                     Sim.files).
Proof.
  assert (Hg : Given.gives Argparse.TopK "--top-k" ["1.5"] "1.5").
  { exists "--top-k", None. split; reflexivity. }
  split; [split; [reflexivity|split; [exact Hg|reflexivity]]|].
  apply (unconvertible_value_rejected Sim.installed Argparse.TopK Sim.argv
           "--top-k" ["1.5"] "1.5" Sim.files Sim.files Sim.imported);
    [reflexivity | reflexivity | exact Hg | reflexivity | reflexivity].
Defined.

(** X7 on [--he --device tpu]: the help is printed although the device
    is not one of the choices and every required option is missing. *)
Lemma help_first_witness :
  Argparse.parse_optional "--he" =
    Argparse.Optional (Some Argparse.Help) "--help" None /\
  help_exit Sim.imported
            (script Sim.installed ["--he"; "--device"; "tpu"] []).
Proof.
  split; [reflexivity|].
  apply (help_first Sim.installed "--he" "--help" ["--device"; "tpu"]
           [] [] Sim.imported); [reflexivity | reflexivity |].
  repeat constructor; discriminate.
Defined.

(** X9 on the run that goes through. *)
Lemma success_means_all_steps_witness :
  outcome (script Sim.installed Sim.argv Sim.files) = Ok tt /\
  steps (trace (script Sim.installed Sim.argv Sim.files)) = pipeline /\
  filter (@failed Sim.installed)
         (trace (script Sim.installed Sim.argv Sim.files)) = [].
Proof.
  split; [reflexivity|].
  destruct (success_means_all_steps Sim.installed Sim.argv Sim.files eq_refl)
    as (_ & Hs & _ & Hf & _).
  exact (conj Hs Hf).
Defined.

(** X10 with a torch that does not load. *)
Lemma import_exception_not_caught_witness :
  outcome (guarded_imports Faulty.broken_torch []) =
    Abort (Raise (Exception "OSError"
                            "libtorch.so: cannot open shared object file")) /\
  exit_status (outcome (script Faulty.broken_torch Sim.argv [])) = 1 /\
  stderr (trace (script Faulty.broken_torch Sim.argv [])) = [].
Proof.
  split; [reflexivity|].
  destruct (import_exception_not_caught Faulty.broken_torch Sim.argv []
              "OSError" "libtorch.so: cannot open shared object file" eq_refl)
    as (_ & _ & Hx & He & _).
  exact (conj Hx He).
Defined.

(** X12 on the run that goes through. *)
Lemma paths_pass_through_witness :
  Argparse.parse_args (float_of_str Sim.installed) (int_of_str Sim.installed)
                      Sim.argv = Argparse.Parsed Sim.args /\
  Forall (path_entry Sim.args) (trace (script Sim.installed Sim.argv Sim.files)).
Proof.
  split; [reflexivity|].
  exact (paths_pass_through Sim.installed Sim.argv Sim.args Sim.files eq_refl).
Defined.

(** X16 on samples in three dimensions: [torchaudio.save] raises, and
    the run ends with status 1. *)
Lemma exceptions_propagate_witness :
  existsb (@failed Faulty.three_dimensions)
          (trace (script Faulty.three_dimensions Sim.argv Sim.files)) = true /\
  exit_status (outcome (script Faulty.three_dimensions Sim.argv Sim.files)) = 1.
Proof.
  split; [reflexivity|].
  destruct (exceptions_propagate Faulty.three_dimensions Sim.argv Sim.files
              eq_refl)
    as (c & e & _ & Hx & _).
  exact Hx.
Defined.

Lemma sim_tensor_is_tensor : tensor_is_tensor Sim.installed.
Proof.
  intros data s o s' H. destruct data; try discriminate H;
    cbn in H; inversion H; reflexivity.
Qed.

(** X17 on the run that goes through. *)
Lemma main_converts_once_witness :
  tensor_is_tensor Sim.installed /\
  (count (@is_conversion Sim.installed)
         (trace (main_body Sim.installed Sim.args Sim.files)) <= 1)%nat /\
  Forall (converts_wav (trace (main_body Sim.installed Sim.args Sim.files)))
         (trace (main_body Sim.installed Sim.args Sim.files)).
Proof.
  split; [exact sim_tensor_is_tensor|].
  exact (main_converts_once Sim.installed Sim.args Sim.files
           sim_tensor_is_tensor).
Defined.

(** X18 with torch and TTS installed and torchaudio missing. *)
Lemma torchaudio_missing_found_late_witness :
  existsb (@import_failed Faulty.no_torchaudio "torchaudio")
          (trace (script Faulty.no_torchaudio Sim.argv Sim.files)) = true /\
  exit_status (outcome (script Faulty.no_torchaudio Sim.argv Sim.files)) = 1 /\
  completed Synthesize (trace (script Faulty.no_torchaudio Sim.argv Sim.files))
  = true.
Proof.
  split; [reflexivity|].
  destruct (torchaudio_missing_found_late Faulty.no_torchaudio Sim.argv
              Sim.files eq_refl)
    as (_ & Hx & _ & _ & _ & Hs & _).
  exact (conj Hx Hs).
Defined.

(** X19 in the world of the runs above. *)
Lemma save_audio_layout_and_rate_witness :
  torch_shapes Sim.installed /\
  (forall argv s0,
      Forall (written_rate 24000) (trace (script Sim.installed argv s0))) /\
  exists src o,
    returned (trace (save_audio Sim.installed (Sim.Tensor [4%nat]) "out.wav"
                                24000 []))
             (torchaudio_save "out.wav" src 24000) o.
Proof.
  split; [exact sim_torch_shapes|].
  destruct (save_audio_layout_and_rate Sim.installed sim_torch_shapes)
    as [Hs Hr].
  split; [exact (fun argv s0 => proj1 (Hr argv s0))|].
  exact (proj2 (Hs (Sim.Tensor [4%nat]) "out.wav" 24000 []) eq_refl).
Defined.

(** X20 on [--finetuned=--]: the base model is found, then
    [os.path.exists] raises on the empty list. *)
Lemma empty_list_path_raises_witness :
  Argparse.parse_args (float_of_str Sim.installed) (int_of_str Sim.installed)
    ["--base-model"; "models/xtts"; "--finetuned=--";
     "--reference-audio"; "ref.wav"; "--text"; "Ahoj"; "--output"; "out.wav"] =
  Argparse.Parsed
    (mkAttributes "models/xtts" EmptyList "ref.wav" "Ahoj" "out.wav"
                  "cs" 0.75%float 3.0%float 50 0.85%float "cpu") /\
  exit_status
    (outcome
       (script Sim.installed
               ["--base-model"; "models/xtts"; "--finetuned=--";
                "--reference-audio"; "ref.wav"; "--text"; "Ahoj";
                "--output"; "out.wav"] Sim.files)) = 1 /\
  steps
    (trace
       (script Sim.installed
               ["--base-model"; "models/xtts"; "--finetuned=--";
                "--reference-audio"; "ref.wav"; "--text"; "Ahoj";
                "--output"; "out.wav"] Sim.files)) = [].
Proof.
  split; [reflexivity|].
  destruct (empty_list_path_raises Sim.installed
              ["--base-model"; "models/xtts"; "--finetuned=--";
               "--reference-audio"; "ref.wav"; "--text"; "Ahoj";
               "--output"; "out.wav"]
              (mkAttributes "models/xtts" EmptyList "ref.wav" "Ahoj" "out.wav"
                            "cs" 0.75%float 3.0%float 50 0.85%float "cpu")
              Sim.files Sim.files Sim.imported eq_refl eq_refl
              (or_intror (or_introl eq_refl)))
    as (Hx & _ & Hs & _).
  exact (conj Hx Hs).
Defined.

End Concrete.
